(** * mcli: a shallow embedding of the CLI engine and of the telnet filter

    The development follows [mcli.h] (types, [CliIoInterface], [CliEngine])
    and the WiFi adapter [mcli_esp32_wifi_sta.h] ([ESP32WiFiIo::get_bytes]).

    - A [char] is an [ascii]; a [char] array is a [list ascii]; a pointer
      into an array is the suffix of the array that starts at the pointer,
      so that [*p] is the head of the suffix and [p++] is its tail.
    - The engine object is a record of its mutable members; its methods are
      functions that take the object and return the updated object together
      with the calls they made on the [CliIoInterface] sink, in order.
    - The bytes handled by the WiFi adapter are [Byte.byte]. *)

From Stdlib Require Import ZArith Lia Bool.
From Stdlib Require Import Ascii String DecimalString.
From Stdlib Require Strings.Byte.
From stdpp Require Import base list.

Local Open Scope Z_scope.

(** ** Characters and C strings *)

Definition NUL : ascii := "000"%char.
Definition BS  : ascii := "008"%char.
Definition LF  : ascii := "010"%char.
Definition CR  : ascii := "013"%char.
Definition SPC : ascii := " "%char.
Definition DEL : ascii := "127"%char.
Definition DQUOTE : ascii := "034"%char.

(** A string literal, as the characters before its terminating NUL. *)
Definition lit (s : string) : list ascii := list_ascii_of_string s.
Arguments lit s%_string.

(** [*p] for a pointer [p] into a NUL-terminated array: reading at the end
    of the modelled memory reads the terminator. *)
Definition deref (p : list ascii) : ascii := hd NUL p.

(** The characters of the C string that starts at [p]. *)
Fixpoint c_str (p : list ascii) : list ascii :=
  match p with
  | [] => []
  | c :: p' => if Ascii.eqb c NUL then [] else c :: c_str p'
  end.

Definition strlen (p : list ascii) : nat := length (c_str p).

Fixpoint list_ascii_eqb (a b : list ascii) : bool :=
  match a, b with
  | [], [] => true
  | x :: a', y :: b' => Ascii.eqb x y && list_ascii_eqb a' b'
  | _, _ => false
  end.

(** [strcmp(a, b) == 0]. *)
Definition strcmp_eq (a b : list ascii) : bool :=
  list_ascii_eqb (c_str a) (c_str b).

(** ** CLI types *)

Definition MAX_ARGS : Z := 5.
Definition MAX_ARG_LENGTH : nat := 12.
Definition CMD_BUFFER_SIZE : nat := 128.

(** [struct CommandArgs]: [argv] is [MAX_ARGS] rows of [MAX_ARG_LENGTH]
    characters. *)
Record CommandArgs := mkCommandArgs {
  argc : Z;
  argv : list (list ascii)
}.

(** The constructor [CommandArgs()]: [argc(0)] and [memset(argv, 0, ...)]. *)
Definition CommandArgs_new : CommandArgs :=
  {| argc := 0;
     argv := replicate (Z.to_nat MAX_ARGS) (replicate MAX_ARG_LENGTH NUL) |}.

(** [args.argv[i]], as the row itself. *)
Definition argv_row (args : CommandArgs) (i : nat) : list ascii :=
  nth i (argv args) [].

(** [args.argv[i]], read as a C string. *)
Definition arg (args : CommandArgs) (i : nat) : list ascii :=
  c_str (argv_row args i).

(** ** The tokenizer: [CliEngine::parse_command_line] *)

(** [strncpy(temp_buffer, input, CMD_BUFFER_SIZE-1);
     temp_buffer[CMD_BUFFER_SIZE - 1] = '\0';] *)
Definition strncpy_temp (input : list ascii) : list ascii :=
  take (CMD_BUFFER_SIZE - 1)
       (c_str input ++ replicate (CMD_BUFFER_SIZE - 1) NUL) ++ [NUL].

(** [while ( *token == ' ') token++;] *)
Fixpoint skip_spaces (token : list ascii) : list ascii :=
  match token with
  | [] => []
  | c :: token' => if Ascii.eqb c SPC then skip_spaces token' else token
  end.

(** The copy loop
    [while ( *token && *token != ' ' && char_count < MAX_ARG_LENGTH - 1)
       { *dest++ = *token++; char_count++; }]
    where [dest] is [row + char_count]. It returns the advanced [token],
    the row and the final [char_count]. *)
Fixpoint copy_token (token row : list ascii) (char_count : nat)
  : list ascii * list ascii * nat :=
  match token with
  | [] => (token, row, char_count)
  | c :: token' =>
      if negb (Ascii.eqb c NUL) && negb (Ascii.eqb c SPC)
         && (char_count <? MAX_ARG_LENGTH - 1)%nat
      then copy_token token' (<[char_count := c]> row) (S char_count)
      else (token, row, char_count)
  end.

(** The outer [while ( *token && args.argc < MAX_ARGS - 1)] loop. Each
    iteration that does not leave the loop copies at least one character
    and increments [argc], so the loop ends by its own guard well within
    [fuel] iterations (lemma [parse_loop_fuel]). *)
Fixpoint parse_loop (fuel : nat) (token : list ascii) (args : CommandArgs)
  : CommandArgs :=
  match fuel with
  | O => args
  | S fuel' =>
      if negb (Ascii.eqb (deref token) NUL) && (argc args <? MAX_ARGS - 1)
      then
        let token := skip_spaces token in
        if Ascii.eqb (deref token) NUL then args
        else
          let '(token, row, char_count) :=
            copy_token token (argv_row args (Z.to_nat (argc args))) 0 in
          let row := <[char_count := NUL]> row in
          let args := {| argc := argc args + 1;
                         argv := <[Z.to_nat (argc args) := row]> (argv args) |} in
          parse_loop fuel' (skip_spaces token) args
      else args
  end.

Definition parse_command_line (input : list ascii) : CommandArgs :=
  parse_loop CMD_BUFFER_SIZE (strncpy_temp input) CommandArgs_new.

Arguments parse_command_line : simpl never.

(** ** The I/O interface: [CliIoInterface]

    The engine reaches its transport only through the virtual methods of
    [CliIoInterface]. A call of an output method is recorded as it is made;
    the sink of a session is the list of the calls, in order. *)
Inductive IoCall :=
| Io_put_byte (c : ascii)
| Io_print (str : list ascii)
| Io_println
| Io_println_str (str : list ascii)
| Io_printf (fmt : list ascii) (a1 a2 : list ascii)
| Io_send_prompt (prompt : list ascii)
| Io_send_backspace.

(** [sizeof(read_buffer)] in [get_command_input]. *)
Definition READ_BUFFER_SIZE : nat := 32.

(** ** The engine: [CliEngine<ContextType>] *)

Section Engine.

Variable ContextType : Type.

(** [CommandFunction<ContextType>]: a handler receives the invocation and
    the application context; it may change the context and write to the
    sink (the examples reach the adapter through [ctx->io]). It has no
    access to the engine. *)
Definition CommandFunction : Type :=
  CommandArgs -> ContextType -> ContextType * list IoCall.

Record CommandDefinition := mkCommandDefinition {
  name : list ascii;
  execute : CommandFunction;
  help : list ascii
}.

(** The members fixed by the constructor. *)
Variable commands_ : list CommandDefinition.
Variable prompt_ : list ascii.

Definition command_count_ : nat := length commands_.

(** The mutable members, with the context object that [context_] refers to. *)
Record CliEngine := mkCliEngine {
  context_ : ContextType;
  input_buffer_ : list ascii;
  input_pos_ : nat;
  last_line_char_ : ascii;
  prompt_sent_ : bool
}.

Definition set_context (ctx : ContextType) (e : CliEngine) : CliEngine :=
  {| context_ := ctx; input_buffer_ := input_buffer_ e;
     input_pos_ := input_pos_ e; last_line_char_ := last_line_char_ e;
     prompt_sent_ := prompt_sent_ e |}.

Definition set_input_buffer (buf : list ascii) (e : CliEngine) : CliEngine :=
  {| context_ := context_ e; input_buffer_ := buf;
     input_pos_ := input_pos_ e; last_line_char_ := last_line_char_ e;
     prompt_sent_ := prompt_sent_ e |}.

Definition set_input_pos (pos : nat) (e : CliEngine) : CliEngine :=
  {| context_ := context_ e; input_buffer_ := input_buffer_ e;
     input_pos_ := pos; last_line_char_ := last_line_char_ e;
     prompt_sent_ := prompt_sent_ e |}.

Definition set_last_line_char (c : ascii) (e : CliEngine) : CliEngine :=
  {| context_ := context_ e; input_buffer_ := input_buffer_ e;
     input_pos_ := input_pos_ e; last_line_char_ := c;
     prompt_sent_ := prompt_sent_ e |}.

Definition set_prompt_sent (b : bool) (e : CliEngine) : CliEngine :=
  {| context_ := context_ e; input_buffer_ := input_buffer_ e;
     input_pos_ := input_pos_ e; last_line_char_ := last_line_char_ e;
     prompt_sent_ := b |}.

(** The engine as the constructor leaves it: [input_buffer_] has no
    initializer, so its first contents [uninit] are whatever the memory
    holds; the other members take their default member initializers. *)
Definition CliEngine_new (ctx : ContextType) (uninit : list ascii) : CliEngine :=
  {| context_ := ctx; input_buffer_ := uninit; input_pos_ := 0%nat;
     last_line_char_ := NUL; prompt_sent_ := false |}.

(** [memset(input_buffer_, 0, sizeof(input_buffer_))] *)
Definition memset_input_buffer (e : CliEngine) : CliEngine :=
  set_input_buffer (replicate CMD_BUFFER_SIZE NUL) e.

(** [CliEngine::reset_session] *)
Definition reset_session (e : CliEngine) : CliEngine :=
  set_prompt_sent false
    (set_last_line_char NUL
       (set_input_pos 0%nat (memset_input_buffer e))).

(** *** [CliEngine::print_help] *)

(** The first loop of [print_help]: the longest command name. *)
Fixpoint max_name_len_loop (cmds : list CommandDefinition) (max_name_len : nat)
  : nat :=
  match cmds with
  | [] => max_name_len
  | cmd :: cmds' =>
      let len := strlen (name cmd) in
      max_name_len_loop cmds'
        (if (max_name_len <? len)%nat then len else max_name_len)
  end.

(** [snprintf(fmt, sizeof(fmt), "  %%-%ds -- %%s\r\n", max_name_len)] with
    [char fmt[32]]. *)
Definition help_fmt (max_name_len : nat) : list ascii :=
  take 31 (lit "  %-"
           ++ lit (NilEmpty.string_of_uint (Nat.to_uint max_name_len))
           ++ lit "s -- %s" ++ [CR; LF]).

Definition print_help : list IoCall :=
  let max_name_len := max_name_len_loop commands_ (strlen (lit "help")) in
  let fmt := help_fmt max_name_len in
  [Io_println; Io_println_str (lit "Available commands:");
   Io_printf fmt (lit "help") (lit "Show available commands")]
  ++ (if (0 <? command_count_)%nat
      then map (fun cmd => Io_printf fmt (name cmd) (help cmd)) commands_
      else [Io_println_str (lit "  (No additional commands registered)")])
  ++ [Io_println].

(** *** [CliEngine::dispatch_command] *)

(** The [for] loop over the user table: the first entry whose name equals
    [argv[0]] is executed. *)
Fixpoint dispatch_loop (cmds : list CommandDefinition) (args : CommandArgs)
    (e : CliEngine) : bool * CliEngine * list IoCall :=
  match cmds with
  | [] => (false, e, [])
  | cmd :: cmds' =>
      if strcmp_eq (argv_row args 0) (name cmd)
      then let '(ctx, out) := execute cmd args (context_ e) in
           (true, set_context ctx e, out)
      else dispatch_loop cmds' args e
  end.

Definition dispatch_command (args : CommandArgs) (e : CliEngine)
  : bool * CliEngine * list IoCall :=
  if argc args =? 0 then (false, e, [])
  else if strcmp_eq (argv_row args 0) (lit "help") then (true, e, print_help)
  else if (command_count_ =? 0)%nat then (false, e, [])
  else dispatch_loop commands_ args e.

(** *** [CliEngine::execute_command] *)
Definition execute_command (command_line : list ascii) (e : CliEngine)
  : bool * CliEngine * list IoCall :=
  let args := parse_command_line command_line in
  dispatch_command args e.

(** *** [CliEngine::get_command_input] *)

(** The body of the [for] loop for one character [in_char]. [Some result]
    is the [return result;] inside the loop; [None] is a [continue] or the
    end of the body. *)
Definition input_char (in_char : ascii) (e : CliEngine)
  : CliEngine * list IoCall * option CommandArgs :=
  if Ascii.eqb in_char BS || Ascii.eqb in_char DEL then
    (* Handle backspace *)
    if (0 <? input_pos_ e)%nat then
      let e := set_input_pos (input_pos_ e - 1) e in
      let e := set_input_buffer (<[input_pos_ e := NUL]> (input_buffer_ e)) e in
      (e, [Io_send_backspace], None)
    else (e, [], None)
  else if Ascii.eqb in_char CR || Ascii.eqb in_char LF then
    (* Handle CRLF *)
    if Ascii.eqb in_char LF && Ascii.eqb (last_line_char_ e) CR then
      (set_last_line_char in_char e, [], None)
    else
      let e := set_last_line_char in_char e in
      if (0 <? input_pos_ e)%nat then
        let e := set_input_buffer (<[input_pos_ e := NUL]> (input_buffer_ e)) e in
        let result := parse_command_line (input_buffer_ e) in
        let e := set_input_pos 0%nat (memset_input_buffer e) in
        (e, [Io_println], Some result)
      else
        (set_prompt_sent false e, [Io_println], None)
  else
    (* Handle regular characters *)
    if (input_pos_ e <? CMD_BUFFER_SIZE - 1)%nat then
      let e' := set_input_buffer (<[input_pos_ e := in_char]> (input_buffer_ e)) e in
      (set_input_pos (input_pos_ e + 1) e', [Io_put_byte in_char], None)
    else (e, [], None).

(** The [for] loop over [read_buffer[0 .. buffer_len)]. *)
Fixpoint input_loop (read_buffer : list ascii) (e : CliEngine)
  : CliEngine * list IoCall * option CommandArgs :=
  match read_buffer with
  | [] => (e, [], None)
  | in_char :: rest =>
      match input_char in_char e with
      | (e', out, Some result) => (e', out, Some result)
      | (e', out, None) =>
          let '(e'', out', r) := input_loop rest e' in (e'', out ++ out', r)
      end
  end.

(** [read_buffer] holds the [buffer_len] bytes that
    [io_.get_bytes(read_buffer, sizeof(read_buffer))] delivered in this
    call. The two kinds of [return] are kept apart: [Some result] is the
    [return result;] of a completed line, [None] is [return CommandArgs();]
    (see [returned_args]). *)
Definition get_command_input (read_buffer : list ascii) (e : CliEngine)
  : CliEngine * list IoCall * option CommandArgs :=
  if (length read_buffer =? 0)%nat then (e, [], None)
  else input_loop read_buffer e.

(** The [CommandArgs] value that the caller of [get_command_input] holds. *)
Definition returned_args (r : option CommandArgs) : CommandArgs :=
  match r with
  | Some result => result
  | None => CommandArgs_new
  end.

(** *** [CliEngine::process_input] *)

Definition not_found_tail : list ascii :=
  DQUOTE :: lit " not found. Type 'help' for available commands.".

(** The first statement of [process_input]:
    [if (!prompt_sent_) { io_.send_prompt(prompt_); prompt_sent_ = true; }] *)
Definition prompt_if_needed (e : CliEngine) : CliEngine * list IoCall :=
  if negb (prompt_sent_ e)
  then (set_prompt_sent true e, [Io_send_prompt prompt_])
  else (e, []).

(** The method returns [void]; the third component is a trace of the call:
    the invocation that was handed to [dispatch_command], if any. *)
Definition process_input (read_buffer : list ascii) (e : CliEngine)
  : CliEngine * list IoCall * option CommandArgs :=
  let '(e, out0) := prompt_if_needed e in
  let '(e, out1, r) := get_command_input read_buffer e in
  let args := returned_args r in
  if 0 <? argc args then
    let '(handled, e, out2) := dispatch_command args e in
    let out3 :=
      if negb handled
      then [Io_print (lit "Command " ++ [DQUOTE]);
            Io_print (argv_row args 0);
            Io_println_str not_found_tail]
      else [] in
    (set_prompt_sent false e, out0 ++ out1 ++ out2 ++ out3, Some args)
  else (e, out0 ++ out1, None).

(** *** Sessions: successive calls from the polling loop *)

(** Successive calls of [get_command_input], one per chunk that the
    transport delivers: the final engine, the sink and the completed lines
    in the order of their completion. *)
Fixpoint feed_chunks (chunks : list (list ascii)) (e : CliEngine)
  : CliEngine * list IoCall * list CommandArgs :=
  match chunks with
  | [] => (e, [], [])
  | read_buffer :: chunks' =>
      let '(e1, out1, r) := get_command_input read_buffer e in
      let '(e2, out2, lines) := feed_chunks chunks' e1 in
      (e2, out1 ++ out2, option_list r ++ lines)
  end.

(** Successive calls of [process_input], as in [loop() { cli.process_input(); }]:
    the final engine, the sink and the dispatched invocations, in order. *)
Fixpoint poll (chunks : list (list ascii)) (e : CliEngine)
  : CliEngine * list IoCall * list CommandArgs :=
  match chunks with
  | [] => (e, [], [])
  | read_buffer :: chunks' =>
      let '(e1, out1, d) := process_input read_buffer e in
      let '(e2, out2, ds) := poll chunks' e1 in
      (e2, out1 ++ out2, option_list d ++ ds)
  end.

End Engine.

Arguments mkCommandDefinition {ContextType}.
Arguments name {ContextType}.
Arguments execute {ContextType}.
Arguments help {ContextType}.
Arguments mkCliEngine {ContextType}.
Arguments context_ {ContextType}.
Arguments input_buffer_ {ContextType}.
Arguments input_pos_ {ContextType}.
Arguments last_line_char_ {ContextType}.
Arguments prompt_sent_ {ContextType}.
Arguments set_context {ContextType}.
Arguments set_input_buffer {ContextType}.
Arguments set_input_pos {ContextType}.
Arguments set_last_line_char {ContextType}.
Arguments set_prompt_sent {ContextType}.
Arguments CliEngine_new {ContextType}.
Arguments memset_input_buffer {ContextType}.
Arguments reset_session {ContextType}.
Arguments print_help {ContextType}.
Arguments dispatch_loop {ContextType}.
Arguments dispatch_command {ContextType}.
Arguments execute_command {ContextType}.
Arguments input_char {ContextType}.
Arguments input_loop {ContextType}.
Arguments get_command_input {ContextType}.
Arguments prompt_if_needed {ContextType}.
Arguments process_input {ContextType}.
Arguments feed_chunks {ContextType}.
Arguments poll {ContextType}.


(** ** The WiFi adapter: [ESP32WiFiIo::get_bytes] *)

Module ESP32WiFiIo.

Import Stdlib.Init.Byte.

Section Adapter.

(** [errno] values of the socket layer; their definitions are in the
    platform headers. *)
Variables EAGAIN EWOULDBLOCK : Z.

(** The members that [get_bytes] uses. *)
Record t := mk {
  socket_fd_ : Z;
  connected_ : bool
}.

(** What [recv(socket_fd_, buffer, max_len, 0)] did: its return value, the
    [errno] it left, and the caller's buffer after the call (the received
    bytes are its first [recv_result] cells). *)
Record recv_outcome := mkRecv {
  recv_result : Z;
  recv_errno : Z;
  recv_buffer : list byte
}.

(** The filter loop
    [for (int read_pos = 0; read_pos < result; read_pos++)], in place on
    [buffer]. [fuel] bounds the iterations; every iteration advances
    [read_pos], so [result] iterations are enough. *)
Fixpoint filter_loop (fuel : nat) (result read_pos : Z) (write_pos : nat)
    (buffer : list byte) : list byte * nat :=
  match fuel with
  | O => (buffer, write_pos)
  | S fuel' =>
      if read_pos <? result then
        let c := nth (Z.to_nat read_pos) buffer x00 in
        if Byte.eqb c xff then
          if read_pos + 2 <? result
          then filter_loop fuel' result (read_pos + 2 + 1) write_pos buffer
          else (buffer, write_pos)
        else
          filter_loop fuel' result (read_pos + 1) (S write_pos)
                      (<[write_pos := c]> buffer)
      else (buffer, write_pos)
  end.

(** [get_bytes(buffer, max_len)]: the adapter after the call, the buffer
    after the call and the returned count. [rx] is what [recv] does if it
    is called. *)
Definition get_bytes (buffer : list byte) (rx : recv_outcome) (io : t)
  : t * list byte * nat :=
  if negb (connected_ io) || (socket_fd_ io <? 0) then (io, buffer, 0%nat)
  else
    let result := recv_result rx in
    let buffer := recv_buffer rx in
    if result <=? 0 then
      if negb (recv_errno rx =? EAGAIN) && negb (recv_errno rx =? EWOULDBLOCK)
      then ({| socket_fd_ := socket_fd_ io; connected_ := false |}, buffer, 0%nat)
      else (io, buffer, 0%nat)
    else if result =? 0 then
      ({| socket_fd_ := socket_fd_ io; connected_ := false |}, buffer, 0%nat)
    else
      let '(buffer, write_pos) :=
        filter_loop (Z.to_nat result) result 0 0%nat buffer in
      (io, buffer, write_pos).

End Adapter.

(** The framing rule in the words of the specification: an escape byte
    0xFF introduces a 3-byte control sequence that is removed; a sequence
    cut short by the end of the data is dropped with what is left of it. *)
Fixpoint strip_control_sequences (data : list byte) : list byte :=
  match data with
  | [] => []
  | c :: rest =>
      if Byte.eqb c xff then
        match rest with
        | _ :: _ :: rest' => strip_control_sequences rest'
        | _ => []
        end
      else c :: strip_control_sequences rest
  end.

End ESP32WiFiIo.

(** ** Predicates used in the statements *)

(** The invariant of the tokenizer on the [CommandArgs] under construction:
    [argc] stays within [0 .. MAX_ARGS - 1]; [argv] keeps its shape; every
    row has a NUL in its last cell; every cell holds a character that
    satisfies [P] (to be: NUL or a character of the input). *)
Definition args_inv (P : ascii -> Prop) (args : CommandArgs) : Prop :=
  0 <= argc args <= MAX_ARGS - 1
  /\ length (argv args) = Z.to_nat MAX_ARGS
  /\ Forall (fun row => length row = MAX_ARG_LENGTH
                        /\ row !! (MAX_ARG_LENGTH - 1)%nat = Some NUL
                        /\ Forall P row) (argv args).

(** The characters that the accumulator stores or echoes: neither a
    backspace nor a line terminator. *)
Definition is_regular (c : ascii) : bool :=
  negb (Ascii.eqb c BS) && negb (Ascii.eqb c DEL)
  && negb (Ascii.eqb c CR) && negb (Ascii.eqb c LF).

Definition regular (c : ascii) : Prop := is_regular c = true.

(** The last call of the "not found" report of [process_input]. *)
Definition is_not_found (call : IoCall) : bool :=
  match call with
  | Io_println_str str => list_ascii_eqb str not_found_tail
  | _ => false
  end.

Fixpoint count_not_found (out : list IoCall) : nat :=
  match out with
  | [] => 0%nat
  | call :: out' =>
      ((if is_not_found call then 1 else 0) + count_not_found out')%nat
  end.

(** [argv[0]] matches no entry of the user table. *)
Definition no_user_match {ContextType : Type}
    (commands : list (CommandDefinition ContextType)) (args : CommandArgs)
  : Prop :=
  Forall (fun cmd => strcmp_eq (argv_row args 0) (name cmd) = false) commands.

(** ** The default methods of [CliIoInterface]

    An adapter derives from [CliIoInterface] and implements [put_byte],
    [get_byte] and [byte_available]; [T] is the adapter object. The other
    methods are the defaults of the base class. *)

Module CliIoInterface.

Section Defaults.

Variable T : Type.
Variable put_byte : ascii -> T -> T.
Variable get_byte : T -> ascii * T.
Variable byte_available : T -> bool * T.

(** What [vsnprintf] makes of a format and the two string arguments that
    [print_help] passes, given room for all of it. *)
Variable vsnprintf : list ascii -> list ascii -> list ascii -> list ascii.

(** [for (size_t count = 0; count < len; count++) put_byte(data[count]);] *)
Fixpoint put_bytes (data : list ascii) (len : nat) (t : T) : T :=
  match len with
  | O => t
  | S len' => put_bytes (tl data) len' (put_byte (deref data) t)
  end.

(** [while (count < max_len && byte_available()) buffer[count++] = get_byte();]
    [fuel] bounds the iterations; [count] grows in each, so [max_len]
    iterations are enough. *)
Fixpoint get_bytes_loop (fuel : nat) (buffer : list ascii)
    (max_len count : nat) (t : T) : list ascii * nat * T :=
  match fuel with
  | O => (buffer, count, t)
  | S fuel' =>
      if (count <? max_len)%nat then
        let '(available, t) := byte_available t in
        if available then
          let '(c, t) := get_byte t in
          get_bytes_loop fuel' (<[count := c]> buffer) max_len (S count) t
        else (buffer, count, t)
      else (buffer, count, t)
  end.

(** [get_bytes(buffer, max_len)]: the buffer after the call, the returned
    count and the adapter. *)
Definition get_bytes (buffer : list ascii) (max_len : nat) (t : T)
  : list ascii * nat * T :=
  get_bytes_loop max_len buffer max_len 0%nat t.

(** [print(str)], for a [str] that is not null. *)
Definition print (str : list ascii) (t : T) : T :=
  let len := strlen str in
  if (0 <? len)%nat then put_bytes str len t else t.

Definition println (t : T) : T := print [CR; LF] t.

Definition println_str (str : list ascii) (t : T) : T :=
  println (print str t).

(** [printf(fmt, ...)] with its [char buffer[64]]: [vsnprintf] stores at
    most 63 characters and a NUL, and returns the length of the whole
    text. *)
Definition printf (fmt a1 a2 : list ascii) (t : T) : T :=
  let text := vsnprintf fmt a1 a2 in
  let buffer := take 63 text ++ [NUL] in
  let len := Z.of_nat (length text) in
  if 0 <? len then
    let len := if 64 <=? len then 64 - 1 else len in
    put_bytes buffer (Z.to_nat len) t
  else t.

Definition send_prompt (prompt : list ascii) (t : T) : T := print prompt t.

Definition send_backspace (t : T) : T := print [BS; SPC; BS] t.

(** A recorded call of the engine, carried out by the default methods. *)
Definition run_call (call : IoCall) (t : T) : T :=
  match call with
  | Io_put_byte c => put_byte c t
  | Io_print str => print str t
  | Io_println => println t
  | Io_println_str str => println_str str t
  | Io_printf fmt a1 a2 => printf fmt a1 a2 t
  | Io_send_prompt prompt => send_prompt prompt t
  | Io_send_backspace => send_backspace t
  end.

Fixpoint run_calls (out : list IoCall) (t : T) : T :=
  match out with
  | [] => t
  | call :: out' => run_calls out' (run_call call t)
  end.

(** The bytes that a recorded call hands to [put_byte], in order. *)
Definition call_bytes (call : IoCall) : list ascii :=
  match call with
  | Io_put_byte c => [c]
  | Io_print str => c_str str
  | Io_println => [CR; LF]
  | Io_println_str str => c_str str ++ [CR; LF]
  | Io_printf fmt a1 a2 => take 63 (vsnprintf fmt a1 a2)
  | Io_send_prompt prompt => c_str prompt
  | Io_send_backspace => [BS; SPC; BS]
  end.

(** [put_byte] for each byte of a list, first to last. *)
Fixpoint put_each (bytes : list ascii) (t : T) : T :=
  match bytes with
  | [] => t
  | c :: bytes' => put_each bytes' (put_byte c t)
  end.

End Defaults.

End CliIoInterface.

(** ** The WiFi adapter: the other methods of [ESP32WiFiIo] *)

Module ESP32WiFiIoMethods.

Import Stdlib.Init.Byte.
Import ESP32WiFiIo.

Section Adapter.

Variables EAGAIN EWOULDBLOCK : Z.

(** [connected_ = false;] *)
Definition disconnect (io : ESP32WiFiIo.t) : ESP32WiFiIo.t :=
  ESP32WiFiIo.mk (socket_fd_ io) false.

(** [byte_available()]: [rx] is what [recv(socket_fd_, &temp, 1, MSG_PEEK)]
    does if it is called. *)
Definition byte_available (rx : recv_outcome) (io : ESP32WiFiIo.t)
  : ESP32WiFiIo.t * bool :=
  if negb (connected_ io) || (socket_fd_ io <? 0) then (io, false)
  else
    let result := recv_result rx in
    if result <=? 0 then
      if (result =? 0)
         || (negb (recv_errno rx =? EAGAIN)
             && negb (recv_errno rx =? EWOULDBLOCK))
      then (disconnect io, false)
      else (io, false)
    else (io, true).

(** [get_byte()]: [c] is the local [char c] before the call; [rx] is what
    the [recv] of [get_bytes(&c, 1)] does, its buffer being that one
    cell. *)
Definition get_byte (c : byte) (rx : recv_outcome) (io : ESP32WiFiIo.t)
  : ESP32WiFiIo.t * byte :=
  if negb (connected_ io) || (socket_fd_ io <? 0) then (io, x00)
  else
    let '(io, buffer, count) := get_bytes EAGAIN EWOULDBLOCK [c] rx io in
    (io, if (count =? 1)%nat then nth 0 buffer x00 else x00).

(** What one [send(socket_fd_, data + offset, chunk_len, 0)] did: its
    return value and the [errno] it left. *)
Record send_outcome := mkSend {
  send_result : Z;
  send_errno : Z
}.

Definition CHUNK_SIZE : nat := 32.

(** The loop [while (offset < len)] of [put_bytes]. The socket is a list
    of answers, one for each call of [send] in order, each a function of the
    offered [chunk_len]; a call that returns [result > 0] has taken the
    first [result] bytes it was offered, and [wire] collects the bytes
    taken. The result has the adapter, the bytes taken, the final [offset]
    and the answers not yet used. [None]: the loop has not ended after the
    listed calls. The delays ([vTaskDelay]) are left out. *)
Fixpoint put_bytes_loop (sends : list (nat -> send_outcome))
    (data : list byte) (len offset : nat) (io : ESP32WiFiIo.t)
    (wire : list byte)
  : option (ESP32WiFiIo.t * list byte * nat * list (nat -> send_outcome)) :=
  if (offset <? len)%nat then
    match sends with
    | [] => None
    | send :: sends' =>
        let chunk_len :=
          if (len - offset <? CHUNK_SIZE)%nat then (len - offset)%nat
          else CHUNK_SIZE in
        let r := send chunk_len in
        let result := send_result r in
        if result <? 0 then
          if (send_errno r =? EAGAIN) || (send_errno r =? EWOULDBLOCK)
          then put_bytes_loop sends' data len offset io wire
          else Some (disconnect io, wire, offset, sends')
        else if result =? 0 then Some (io, wire, offset, sends')
        else
          put_bytes_loop sends' data len (offset + Z.to_nat result)%nat io
            (wire ++ take (Z.to_nat result) (drop offset data))
    end
  else Some (io, wire, offset, sends).

(** [put_bytes(data, len)]: the adapter, the bytes that the socket took,
    the final [offset] and the answers not yet used. *)
Definition put_bytes (sends : list (nat -> send_outcome)) (data : list byte)
    (len : nat) (io : ESP32WiFiIo.t)
  : option (ESP32WiFiIo.t * list byte * nat * list (nat -> send_outcome)) :=
  if negb (connected_ io) || (socket_fd_ io <? 0)
  then Some (io, [], 0%nat, sends)
  else put_bytes_loop sends data len 0 io [].

(** [put_byte(c)] is [put_bytes(&c, 1)]. *)
Definition put_byte (sends : list (nat -> send_outcome)) (c : byte)
    (io : ESP32WiFiIo.t)
  : option (ESP32WiFiIo.t * list byte * nat * list (nat -> send_outcome)) :=
  put_bytes sends [c] 1 io.

(** [send_telnet_response(byte1, byte2)]: three calls of [put_byte]; the
    adapter, the bytes that the socket took and the answers not yet
    used. *)
Definition send_telnet_response (sends : list (nat -> send_outcome))
    (byte1 byte2 : byte) (io : ESP32WiFiIo.t)
  : option (ESP32WiFiIo.t * list byte * list (nat -> send_outcome)) :=
  match put_byte sends xff io with
  | None => None
  | Some (io, wire1, _, sends) =>
      match put_byte sends byte1 io with
      | None => None
      | Some (io, wire2, _, sends) =>
          match put_byte sends byte2 io with
          | None => None
          | Some (io, wire3, _, sends) =>
              Some (io, wire1 ++ wire2 ++ wire3, sends)
          end
      end
  end.

End Adapter.

End ESP32WiFiIoMethods.

(** ** The earlier WiFi adapter, [mcli_esp32_io.h]

    It has the members of [ESP32WiFiIo] and no filter. *)

Module ESP32WiFiIoPlain.

Import Stdlib.Init.Byte.
Import ESP32WiFiIo.

Section Adapter.

Variables EAGAIN EWOULDBLOCK : Z.

(** [get_bytes(buffer, max_len)] *)
Definition get_bytes (buffer : list byte) (rx : recv_outcome)
    (io : ESP32WiFiIo.t) : ESP32WiFiIo.t * list byte * nat :=
  if negb (connected_ io) || (socket_fd_ io <? 0) then (io, buffer, 0%nat)
  else
    let result := recv_result rx in
    let buffer := recv_buffer rx in
    if result <? 0 then
      if negb (recv_errno rx =? EAGAIN) && negb (recv_errno rx =? EWOULDBLOCK)
      then (ESP32WiFiIo.mk (socket_fd_ io) false, buffer, 0%nat)
      else (io, buffer, 0%nat)
    else if result =? 0 then
      (ESP32WiFiIo.mk (socket_fd_ io) false, buffer, 0%nat)
    else (io, buffer, Z.to_nat result).

End Adapter.

End ESP32WiFiIoPlain.

(** ** Further predicates used in the statements *)

(** The line buffer is an array of [CMD_BUFFER_SIZE] cells and the cursor
    leaves room for the terminating NUL. *)
Definition buffer_wf {ContextType : Type} (e : CliEngine ContextType) : Prop :=
  length (input_buffer_ e) = CMD_BUFFER_SIZE
  /\ (input_pos_ e <= CMD_BUFFER_SIZE - 1)%nat.

(** The cells from the cursor on hold NUL. *)
Definition buffer_clean {ContextType : Type} (e : CliEngine ContextType)
  : Prop :=
  forall i : nat,
    (input_pos_ e <= i < CMD_BUFFER_SIZE)%nat ->
    input_buffer_ e !! i = Some NUL.

(** A token that fits a row of [argv]: not empty, at most
    [MAX_ARG_LENGTH - 1] characters, none of them a space or NUL. *)
Definition is_token (tok : list ascii) : Prop :=
  tok <> [] /\ (length tok <= MAX_ARG_LENGTH - 1)%nat
  /\ Forall (fun c => c <> SPC /\ c <> NUL) tok.

(** The tokens [more], each after [S gap] spaces. *)
Definition spaced_tokens (more : list (nat * list ascii)) : list ascii :=
  concat (map (fun gt => replicate (S gt.1) SPC ++ gt.2) more).

(** A command line: [lead] spaces, a first token, more tokens after one
    space or more each, and [trail] spaces. *)
Definition command_line_of (lead : nat) (tok : list ascii)
    (more : list (nat * list ascii)) (trail : nat) : list ascii :=
  replicate lead SPC ++ tok ++ spaced_tokens more ++ replicate trail SPC.

(** The arguments of an invocation, as C strings. *)
Definition args_of (args : CommandArgs) : list (list ascii) :=
  map (arg args) (seq 0 (Z.to_nat (argc args))).

(** The received bytes end with a whole control sequence or with data:
    no escape byte is left without its two followers. *)
Fixpoint ends_clean (data : list Byte.byte) : bool :=
  match data with
  | [] => true
  | c :: rest =>
      if Byte.eqb c Byte.xff then
        match rest with
        | _ :: _ :: rest' => ends_clean rest'
        | _ => false
        end
      else ends_clean rest
  end.

(** The effective payload of a call of [get_bytes]: the first [count]
    cells of the buffer after the call. *)
Definition payload_of (r : ESP32WiFiIo.t * list Byte.byte * nat)
  : list Byte.byte :=
  take r.2 r.1.2.

(** A [send] that is offered bytes takes no more than it is offered. *)
Definition send_within (send : nat -> ESP32WiFiIoMethods.send_outcome)
  : Prop :=
  forall n : nat, (0 < n)%nat ->
    ESP32WiFiIoMethods.send_result (send n) <= Z.of_nat n.

(** A [send] takes at least one byte of what it is offered. *)
Definition send_takes (send : nat -> ESP32WiFiIoMethods.send_outcome)
  : Prop :=
  forall n : nat, (0 < n)%nat ->
    0 < ESP32WiFiIoMethods.send_result (send n) <= Z.of_nat n.

(** [errno] says that the call would have blocked. *)
Definition would_block (EAGAIN EWOULDBLOCK errno : Z) : bool :=
  (errno =? EAGAIN) || (errno =? EWOULDBLOCK).

(** * Properties *)

(** ** C strings *)

Lemma c_str_subseteq (p : list ascii) : c_str p ⊆ p.
Proof.
  induction p as [|c p IH]; simpl; [done|].
  destruct (Ascii.eqb c NUL); [apply list_subseteq_nil|].
  intros x Hx. apply elem_of_cons in Hx as [->|Hx]; [left|right; auto].
Qed.

Lemma c_str_length_le (p : list ascii) : (length (c_str p) <= length p)%nat.
Proof.
  induction p as [|c p IH]; simpl; [lia|].
  destruct (Ascii.eqb c NUL); simpl; lia.
Qed.

(** A NUL at index [k] ends the string at or before [k]. *)
Lemma c_str_length_nul (p : list ascii) (k : nat) :
  p !! k = Some NUL -> (length (c_str p) <= k)%nat.
Proof.
  revert k. induction p as [|c p IH]; intros k Hk; [done|].
  simpl. destruct (Ascii.eqb c NUL) eqn:Hc; simpl; [lia|].
  destruct k as [|k]; simpl in Hk.
  - injection Hk as ->. discriminate.
  - specialize (IH k Hk). lia.
Qed.

Lemma Forall_suffix_of {A} (P : A -> Prop) (l1 l2 : list A) :
  l1 `suffix_of` l2 -> Forall P l2 -> Forall P l1.
Proof. intros [k Hk] H. rewrite Hk in H. by apply Forall_app in H as []. Qed.

(** ** The tokenizer *)

Lemma skip_spaces_suffix (token : list ascii) : skip_spaces token `suffix_of` token.
Proof.
  induction token as [|c token IH]; simpl; [done|].
  destruct (Ascii.eqb c SPC); [by apply suffix_cons_r | done].
Qed.

Lemma skip_spaces_deref (token : list ascii) : deref (skip_spaces token) <> SPC.
Proof.
  induction token as [|c token IH]; simpl; [discriminate|].
  destruct (Ascii.eqb c SPC) eqn:Hc; [done|].
  simpl. intros ->. discriminate.
Qed.

(** What the copy loop leaves: the source pointer has only advanced, the
    row keeps its length and its cells from index [MAX_ARG_LENGTH - 1] on,
    and the count stays below the length of a row. *)
Lemma copy_token_spec (P : ascii -> Prop) (token row : list ascii)
    (char_count : nat) :
  (char_count <= MAX_ARG_LENGTH - 1)%nat ->
  Forall P token -> Forall P row ->
  match copy_token token row char_count with
  | (token', row', char_count') =>
      token' `suffix_of` token
      /\ length row' = length row
      /\ (char_count <= char_count' <= MAX_ARG_LENGTH - 1)%nat
      /\ row' !! (MAX_ARG_LENGTH - 1)%nat = row !! (MAX_ARG_LENGTH - 1)%nat
      /\ Forall P row'
  end.
Proof.
  revert row char_count.
  induction token as [|c token IH]; intros row n Hn Htok Hrow; cbn [copy_token].
  { repeat split; (done || lia). }
  destruct (negb (Ascii.eqb c NUL) && negb (Ascii.eqb c SPC)
            && (n <? MAX_ARG_LENGTH - 1)%nat) eqn:Hc.
  - apply andb_prop in Hc as [_ Hlt]. apply Nat.ltb_lt in Hlt.
    apply Forall_cons in Htok as [Hc Htok].
    specialize (IH (<[n := c]> row) (S n) ltac:(lia) Htok
                   (Forall_insert _ _ _ _ Hrow Hc)).
    destruct (copy_token token (<[n := c]> row) (S n)) as [[token' row'] n'].
    destruct IH as (Hs & Hl & Hb & H11 & HP).
    split; [by apply suffix_cons_r|].
    split; [by rewrite Hl, length_insert|].
    split; [lia|].
    split; [|done].
    rewrite H11. apply list_lookup_insert_ne. lia.
  - repeat split; (done || lia).
Qed.

(** The first character of a token is always copied. *)
Lemma copy_token_progress (c : ascii) (token row : list ascii) :
  c <> NUL -> c <> SPC ->
  match copy_token (c :: token) row 0 with
  | (token', _, _) => token' `suffix_of` token
  end.
Proof.
  intros Hn Hs. cbn [copy_token].
  apply Ascii.eqb_neq in Hn. apply Ascii.eqb_neq in Hs. rewrite Hn, Hs. simpl.
  pose proof (copy_token_spec (fun _ => True) token (<[0%nat := c]> row) 1
                ltac:(unfold MAX_ARG_LENGTH; lia)
                ltac:(by apply Forall_true) ltac:(by apply Forall_true)) as H.
  destruct (copy_token token (<[0%nat := c]> row) 1) as [[token' row'] n'].
  tauto.
Qed.

Lemma args_inv_new (P : ascii -> Prop) : P NUL -> args_inv P CommandArgs_new.
Proof.
  intros HP. unfold args_inv, CommandArgs_new; cbn [argc argv].
  split; [unfold MAX_ARGS; lia|].
  split; [apply length_replicate|].
  apply Forall_replicate.
  split; [apply length_replicate|].
  split; [reflexivity|].
  by apply Forall_replicate.
Qed.

Lemma args_inv_row (P : ascii -> Prop) (args : CommandArgs) (i : nat) :
  args_inv P args -> (i < Z.to_nat MAX_ARGS)%nat ->
  length (argv_row args i) = MAX_ARG_LENGTH
  /\ argv_row args i !! (MAX_ARG_LENGTH - 1)%nat = Some NUL
  /\ Forall P (argv_row args i).
Proof.
  intros (_ & Hlen & Hrows) Hi. unfold argv_row.
  destruct (lookup_lt_is_Some_2 (argv args) i ltac:(lia)) as [row Hrow].
  rewrite (nth_lookup_Some _ _ _ _ Hrow).
  exact (proj1 (Forall_lookup _ _) Hrows i row Hrow).
Qed.

Lemma parse_loop_inv (P : ascii -> Prop) (fuel : nat) (token : list ascii)
    (args : CommandArgs) :
  P NUL -> Forall P token -> args_inv P args ->
  args_inv P (parse_loop fuel token args).
Proof.
  intros HP. revert token args.
  induction fuel as [|fuel IH]; intros token args Htok Hargs;
    cbn [parse_loop]; [done|].
  destruct (negb (Ascii.eqb (deref token) NUL) && (argc args <? MAX_ARGS - 1))
    eqn:Hc; [|done].
  apply andb_prop in Hc as [_ Hlt]. apply Z.ltb_lt in Hlt.
  destruct (Ascii.eqb (deref (skip_spaces token)) NUL); [done|].
  assert (Forall P (skip_spaces token)) as Htok1
    by exact (Forall_suffix_of P _ _ (skip_spaces_suffix token) Htok).
  pose proof Hargs as (Hargc & Hlen & Hrows).
  destruct (args_inv_row P args (Z.to_nat (argc args)) Hargs ltac:(lia))
    as (Hrl & Hr11 & HrP).
  pose proof (copy_token_spec P (skip_spaces token)
                (argv_row args (Z.to_nat (argc args))) 0
                ltac:(lia) Htok1 HrP) as H.
  destruct (copy_token (skip_spaces token) (argv_row args (Z.to_nat (argc args))) 0)
    as [[token' row'] n'].
  destruct H as (Hs & Hl & Hb & H11 & HP').
  apply IH.
  - apply (Forall_suffix_of P _ _ (skip_spaces_suffix token')).
    exact (Forall_suffix_of P _ _ Hs Htok1).
  - unfold args_inv; cbn [argc argv]. repeat split; try lia.
    + by rewrite length_insert.
    + apply Forall_insert; [done|]. repeat split.
      * by rewrite length_insert, Hl.
      * destruct (decide (n' = (MAX_ARG_LENGTH - 1)%nat)) as [->|Hne].
        -- apply list_lookup_insert_eq. rewrite Hl, Hrl. unfold MAX_ARG_LENGTH. lia.
        -- rewrite list_lookup_insert_ne by done. by rewrite H11.
      * by apply Forall_insert.
Qed.

(** The fuel of [parse_loop] is never what ends the loop: the guard
    [args.argc < MAX_ARGS - 1] ends it after at most [MAX_ARGS - 1 - argc]
    iterations, and any fuel above that bound gives the same result. *)
Lemma parse_loop_fuel (fuel fuel' : nat) (token : list ascii) (args : CommandArgs) :
  (Z.to_nat (MAX_ARGS - 1 - argc args) <= fuel)%nat ->
  (Z.to_nat (MAX_ARGS - 1 - argc args) <= fuel')%nat ->
  parse_loop fuel token args = parse_loop fuel' token args.
Proof.
  revert fuel' token args.
  induction fuel as [|fuel IH]; intros fuel' token args Hf Hf'.
  - assert ((argc args <? MAX_ARGS - 1) = false) as Hge by (apply Z.ltb_ge; lia).
    destruct fuel'; cbn [parse_loop]; [done|].
    by rewrite Hge, andb_false_r.
  - destruct fuel' as [|fuel']; cbn [parse_loop].
    + assert ((argc args <? MAX_ARGS - 1) = false) as Hge by (apply Z.ltb_ge; lia).
      by rewrite Hge, andb_false_r.
    + destruct (negb (Ascii.eqb (deref token) NUL) && (argc args <? MAX_ARGS - 1));
        [|done].
      destruct (Ascii.eqb (deref (skip_spaces token)) NUL); [done|].
      destruct (copy_token (skip_spaces token)
                  (argv_row args (Z.to_nat (argc args))) 0) as [[token' row'] n'].
      apply IH; cbn [argc]; lia.
Qed.

Lemma parse_command_line_fuel (fuel : nat) (input : list ascii) :
  (Z.to_nat (MAX_ARGS - 1) <= fuel)%nat ->
  parse_command_line input
  = parse_loop fuel (strncpy_temp input) CommandArgs_new.
Proof.
  intros Hf. unfold parse_command_line.
  apply parse_loop_fuel; cbn [argc CommandArgs_new];
    unfold MAX_ARGS, CMD_BUFFER_SIZE in *; lia.
Qed.

Lemma strncpy_temp_c_str (input : list ascii) :
  Forall (fun c => c = NUL \/ c ∈ c_str input) (strncpy_temp input).
Proof.
  unfold strncpy_temp. apply Forall_app. split.
  - apply Forall_take, Forall_app. split.
    + apply Forall_forall. intros c Hc. by right.
    + apply Forall_forall. intros c Hc. left.
      by apply elem_of_replicate in Hc as [].
  - apply Forall_cons. split; [by left | done].
Qed.

Lemma strncpy_temp_chars (input : list ascii) :
  Forall (fun c => c = NUL \/ c ∈ input) (strncpy_temp input).
Proof.
  eapply Forall_impl; [apply strncpy_temp_c_str|].
  intros c [->|Hc]; [by left|]. right. by apply c_str_subseteq.
Qed.

(** Every invocation that the tokenizer returns is well formed, and its
    characters come from the line. *)
Lemma parse_command_line_inv (input : list ascii) :
  args_inv (fun c => c = NUL \/ c ∈ input) (parse_command_line input).
Proof.
  unfold parse_command_line. apply parse_loop_inv.
  - by left.
  - apply strncpy_temp_chars.
  - apply args_inv_new. by left.
Qed.

(** Every argument is NUL-terminated within its row: as a C string it has
    at most [MAX_ARG_LENGTH - 1] characters. *)
Lemma parse_command_line_arg_length (input : list ascii) (i : nat) :
  (i < Z.to_nat MAX_ARGS)%nat ->
  (length (arg (parse_command_line input) i) <= MAX_ARG_LENGTH - 1)%nat.
Proof.
  intros Hi. unfold arg.
  destruct (args_inv_row _ _ i (parse_command_line_inv input) Hi) as (_ & H11 & _).
  by apply c_str_length_nul.
Qed.

(** A line that holds nothing but spaces has no argument. *)
Lemma skip_spaces_blank (token : list ascii) :
  Forall (fun c => c = SPC \/ c = NUL) token -> deref (skip_spaces token) = NUL.
Proof.
  induction 1 as [|c token [->| ->] _ IH]; cbn [skip_spaces]; [done| |done].
  change (Ascii.eqb SPC SPC) with true. exact IH.
Qed.

Lemma parse_loop_blank (fuel : nat) (token : list ascii) (args : CommandArgs) :
  Forall (fun c => c = SPC \/ c = NUL) token ->
  parse_loop fuel token args = args.
Proof.
  intros Htok. destruct fuel as [|fuel]; cbn [parse_loop]; [done|].
  destruct (negb (Ascii.eqb (deref token) NUL) && (argc args <? MAX_ARGS - 1));
    [|done].
  by rewrite (skip_spaces_blank _ Htok).
Qed.


(** C2. The claim reads: tokenizing "led on extra1 extra2 extra3 extra4"
    with [MAX_ARGS = 5] yields [argc = 5], and [argc] may reach
    [MAX_ARGS]. The loop guard of [parse_command_line] is
    [args.argc < MAX_ARGS - 1]: for every line [argc] stays within
    [0 .. MAX_ARGS - 1], so the last row of [argv] is never used, and on
    this line the tokenizer returns [argc = 4] with the arguments "led",
    "on", "extra1" and "extra2"; the two last tokens are dropped. *)
Theorem parse_command_line_extra_tokens :
  (forall input : list ascii,
      0 <= argc (parse_command_line input) <= MAX_ARGS - 1)
  /\ argc (parse_command_line (lit "led on extra1 extra2 extra3 extra4")) = 4
  /\ map c_str (argv (parse_command_line (lit "led on extra1 extra2 extra3 extra4")))
     = [lit "led"; lit "on"; lit "extra1"; lit "extra2"; []].
Proof.
  split.
  - intros input. exact (proj1 (parse_command_line_inv input)).
  - split; vm_compute; reflexivity.
Qed.

(** C4. The claim reads: a token longer than [MAX_ARG_LENGTH - 1]
    characters is truncated into its single slot and the excess
    characters are dropped, not emitted as further tokens. The copy loop
    of [parse_command_line] stops after [MAX_ARG_LENGTH - 1] characters
    and leaves [token] on the first character that was not copied, so the
    next iteration starts a new argument there: the single token
    "abcdefghijklmnop" yields [argc = 2] with the arguments "abcdefghijk"
    and "lmnop". *)
Theorem parse_command_line_long_token :
  argc (parse_command_line (lit "abcdefghijklmnop")) = 2
  /\ arg (parse_command_line (lit "abcdefghijklmnop")) 0 = lit "abcdefghijk"
  /\ arg (parse_command_line (lit "abcdefghijklmnop")) 1 = lit "lmnop".
Proof. repeat split; vm_compute; reflexivity. Qed.

(** ** Comparison of C strings *)

Lemma list_ascii_eqb_eq (a b : list ascii) : list_ascii_eqb a b = true <-> a = b.
Proof.
  revert b. induction a as [|x a IH]; intros [|y b]; simpl; try done.
  rewrite andb_true_iff, Ascii.eqb_eq, IH. split.
  - by intros [-> ->].
  - intros [= -> ->]. done.
Qed.

Lemma strcmp_eq_true (a b : list ascii) : strcmp_eq a b = true <-> c_str a = c_str b.
Proof. apply list_ascii_eqb_eq. Qed.

Lemma c_str_lit_help : c_str (lit "help") = lit "help".
Proof. reflexivity. Qed.

(** ** The dispatch table *)

(** The padding width of [print_help] is the greatest of [m] and the
    lengths of the names of the table. *)
Lemma max_name_len_loop_spec (ContextType : Type)
    (cmds : list (CommandDefinition ContextType)) (m : nat) :
  (m <= max_name_len_loop _ cmds m)%nat
  /\ Forall (fun cmd => (strlen (name cmd) <= max_name_len_loop _ cmds m)%nat) cmds
  /\ (max_name_len_loop _ cmds m = m
      \/ Exists (fun cmd => strlen (name cmd) = max_name_len_loop _ cmds m) cmds).
Proof.
  revert m. induction cmds as [|cmd cmds IH]; intros m; cbn [max_name_len_loop].
  { split; [lia|]. split; [done | by left]. }
  destruct (Nat.ltb_spec m (strlen (name cmd))) as [Hlt|Hge].
  - destruct (IH (strlen (name cmd))) as (Hm & Hall & Hex).
    split; [lia|]. split; [by apply Forall_cons|].
    right. destruct Hex as [Heq|Hex]; [by left | by right].
  - destruct (IH m) as (Hm & Hall & Hex).
    split; [done|]. split; [apply Forall_cons; split; [lia|done]|].
    destruct Hex as [Heq|Hex]; [by left | right; by right].
Qed.

(** The calls of [print_help], one after the other. *)
Lemma print_help_calls (ContextType : Type)
    (commands : list (CommandDefinition ContextType)) :
  print_help commands
  = [Io_println; Io_println_str (lit "Available commands:");
     Io_printf (help_fmt (max_name_len_loop _ commands (strlen (lit "help"))))
       (lit "help") (lit "Show available commands")]
    ++ match commands with
       | [] => [Io_println_str (lit "  (No additional commands registered)")]
       | _ :: _ =>
           map (fun cmd =>
                  Io_printf
                    (help_fmt
                       (max_name_len_loop _ commands (strlen (lit "help"))))
                    (name cmd) (help cmd))
               commands
       end
    ++ [Io_println].
Proof. unfold print_help, command_count_. by destruct commands. Qed.

(** C7. For every command table, every engine and every invocation with
    [argc >= 1] whose [argv[0]] is "help", [dispatch_command] returns true
    and the sink receives the help listing of [print_help]: a blank line,
    the header, the line of the built-in [help], one line for each entry
    of the table in registration order (or the line that says there is
    none) and a blank line, each command line printed with the format
    whose padding width is the length of the longest name among "help" and
    the names of the table. The engine, with the application context, is
    returned as it was and the sink receives nothing else: no handler of
    the table runs, also when the table has an entry named "help". *)
Theorem dispatch_command_help_builtin (ContextType : Type)
    (commands : list (CommandDefinition ContextType)) (args : CommandArgs)
    (e : CliEngine ContextType) :
  1 <= argc args ->
  arg args 0 = lit "help" ->
  let width := max_name_len_loop _ commands (strlen (lit "help")) in
  dispatch_command commands args e = (true, e, print_help commands)
  /\ (dispatch_command commands args e).2
     = [Io_println; Io_println_str (lit "Available commands:");
        Io_printf (help_fmt width) (lit "help") (lit "Show available commands")]
       ++ match commands with
          | [] => [Io_println_str (lit "  (No additional commands registered)")]
          | _ :: _ =>
              map (fun cmd => Io_printf (help_fmt width) (name cmd) (help cmd))
                  commands
          end
       ++ [Io_println]
  /\ (4 <= width)%nat
  /\ Forall (fun cmd => (strlen (name cmd) <= width)%nat) commands
  /\ (width = 4%nat \/ Exists (fun cmd => strlen (name cmd) = width) commands).
Proof.
  intros Hargc Hhelp width.
  assert (dispatch_command commands args e = (true, e, print_help commands))
    as Hrun.
  { unfold dispatch_command.
    destruct (Z.eqb_spec (argc args) 0) as [H0|_]; [lia|].
    assert (strcmp_eq (argv_row args 0) (lit "help") = true) as ->; [|done].
    apply strcmp_eq_true. by rewrite c_str_lit_help. }
  split; [exact Hrun|]. rewrite Hrun. cbn [snd].
  split; [apply print_help_calls|].
  exact (max_name_len_loop_spec ContextType commands (strlen (lit "help"))).
Qed.

Lemma dispatch_command_help_builtin_witness :
  let commands :=
    [mkCommandDefinition (lit "help")
       (fun (_ : CommandArgs) (ctx : nat) => (S ctx, [Io_println]))
       (lit "a user entry");
     mkCommandDefinition (lit "status")
       (fun (_ : CommandArgs) (ctx : nat) => (ctx, []))
       (lit "Show status")] in
  let e := CliEngine_new 0%nat (replicate CMD_BUFFER_SIZE NUL) in
  dispatch_command commands (parse_command_line (lit "help")) e
  = (true, e,
     [Io_println; Io_println_str (lit "Available commands:");
      Io_printf (lit "  %-6s -- %s" ++ [CR; LF]) (lit "help")
        (lit "Show available commands");
      Io_printf (lit "  %-6s -- %s" ++ [CR; LF]) (lit "help")
        (lit "a user entry");
      Io_printf (lit "  %-6s -- %s" ++ [CR; LF]) (lit "status")
        (lit "Show status");
      Io_println]).
Proof.
  intros commands e.
  rewrite (proj1 (dispatch_command_help_builtin nat commands
                    (parse_command_line (lit "help")) e
                    ltac:(vm_compute; discriminate)
                    ltac:(vm_compute; reflexivity))).
  reflexivity.
Defined.

Lemma dispatch_loop_no_match (ContextType : Type)
    (cmds : list (CommandDefinition ContextType)) (args : CommandArgs)
    (e : CliEngine ContextType) :
  no_user_match cmds args -> dispatch_loop cmds args e = (false, e, []).
Proof.
  induction 1 as [|cmd cmds Hcmd _ IH]; simpl; [done|]. by rewrite Hcmd.
Qed.

Lemma dispatch_command_no_match (ContextType : Type)
    (commands : list (CommandDefinition ContextType)) (args : CommandArgs)
    (e : CliEngine ContextType) :
  argc args = 0
  \/ (strcmp_eq (argv_row args 0) (lit "help") = false
      /\ no_user_match commands args) ->
  dispatch_command commands args e = (false, e, []).
Proof.
  unfold dispatch_command. intros [->|[-> Hno]]; [done|].
  destruct (argc args =? 0); [done|].
  destruct (command_count_ _ commands =? 0)%nat; [done|].
  by apply dispatch_loop_no_match.
Qed.

(** ** The input accumulator *)

(** Projections of the engine record and of result tuples, without
    unfolding the tokenizer or the buffers. *)
Ltac engine_simpl :=
  cbn [fst snd context_ input_buffer_ input_pos_ last_line_char_ prompt_sent_
       set_context set_input_buffer set_input_pos set_last_line_char
       set_prompt_sent memset_input_buffer] in *.

Section Accumulator.

Context {ContextType : Type}.
Implicit Types (e : CliEngine ContextType) (c : ascii).
Implicit Types (read_buffer line : list ascii) (chunks : list (list ascii)).

(** With no byte the loop body never runs: the early [return] for
    [buffer_len == 0] is the loop on an empty buffer. *)
Lemma get_command_input_loop read_buffer e :
  get_command_input read_buffer e = input_loop read_buffer e.
Proof. by destruct read_buffer. Qed.

(** The loop over a buffer [a ++ b] is the loop over [a], followed by the
    loop over [b] unless a line was completed within [a]: the bytes after
    a completed line are not looked at. *)
Lemma input_loop_app (a b : list ascii) e :
  input_loop (a ++ b) e =
  match input_loop a e with
  | (e1, out1, Some result) => (e1, out1, Some result)
  | (e1, out1, None) =>
      let '(e2, out2, r) := input_loop b e1 in (e2, out1 ++ out2, r)
  end.
Proof.
  revert e. induction a as [|c a IH]; intros e; simpl.
  - by destruct (input_loop b e) as [[e2 out2] r].
  - destruct (input_char c e) as [[e1 out1] [result|]]; [done|].
    rewrite IH.
    destruct (input_loop a e1) as [[e2 out2] [result|]]; [done|].
    destruct (input_loop b e2) as [[e3 out3] r]. by rewrite (assoc_L (++)).
Qed.

Lemma regular_eqb c :
  regular c ->
  Ascii.eqb c BS = false /\ Ascii.eqb c DEL = false
  /\ Ascii.eqb c CR = false /\ Ascii.eqb c LF = false.
Proof.
  unfold regular, is_regular.
  by repeat (destruct (Ascii.eqb c _); [done|]).
Qed.

(** A regular character completes nothing, leaves the last terminator and
    leaves a non-empty line behind. *)
Lemma input_char_regular c e :
  regular c ->
  exists e' out,
    input_char c e = (e', out, None)
    /\ last_line_char_ e' = last_line_char_ e
    /\ (0 < input_pos_ e')%nat.
Proof.
  intros (Hbs & Hdel & Hcr & Hlf)%regular_eqb. unfold input_char.
  rewrite Hbs, Hdel, Hcr, Hlf. cbn [orb].
  destruct (Nat.ltb_spec (input_pos_ e) (CMD_BUFFER_SIZE - 1)) as [Hlt|Hge].
  - eexists _, _. split; [done|]. cbn. split; [done|lia].
  - eexists _, _. split; [done|]. split; [done|].
    unfold CMD_BUFFER_SIZE in Hge. lia.
Qed.

Lemma input_loop_regular line e :
  Forall regular line ->
  exists e' out,
    input_loop line e = (e', out, None)
    /\ last_line_char_ e' = last_line_char_ e
    /\ ((0 < input_pos_ e)%nat \/ line <> [] -> (0 < input_pos_ e')%nat).
Proof.
  intros Hline. revert e. induction Hline as [|c line Hc _ IH]; intros e.
  - exists e, []. split; [done|]. split; [done|]. by intros [?|?].
  - destruct (input_char_regular c e Hc) as (e1 & out1 & Hstep & Hlast & Hpos).
    destruct (IH e1) as (e2 & out2 & Hloop & Hlast2 & Hpos2).
    exists e2, (out1 ++ out2). cbn [input_loop]. rewrite Hstep, Hloop.
    split; [done|]. split; [congruence|]. intros _. apply Hpos2. by left.
Qed.


(** A terminator that is not suppressed completes a non-empty line. *)
Lemma input_char_CR_completes e :
  (0 < input_pos_ e)%nat ->
  exists e' result,
    input_char CR e = (e', [Io_println], Some result)
    /\ last_line_char_ e' = CR /\ input_pos_ e' = 0%nat.
Proof.
  intros Hpos. unfold input_char. cbn [Ascii.eqb CR BS DEL LF orb andb].
  change (Ascii.eqb "013" "008") with false.
  change (Ascii.eqb "013" "127") with false.
  change (Ascii.eqb "013" "013") with true.
  change (Ascii.eqb "013" "010") with false.
  cbn [orb andb]. cbn [set_last_line_char input_pos_].
  destruct (Nat.ltb_spec 0 (input_pos_ e)) as [_|?]; [|lia].
  eexists _, _. split; [done|]. done.
Qed.

(** The second half of a CRLF pair only updates the last terminator. *)
Lemma input_char_LF_after_CR e :
  last_line_char_ e = CR ->
  input_char LF e = (set_last_line_char LF e, [], None).
Proof. intros H. unfold input_char. rewrite H. reflexivity. Qed.

(** A terminator on an empty line echoes a newline and re-arms the prompt. *)
Lemma input_char_LF_empty e :
  last_line_char_ e <> CR -> input_pos_ e = 0%nat ->
  input_char LF e
  = (set_prompt_sent false (set_last_line_char LF e), [Io_println], None).
Proof.
  intros Hlast Hpos. unfold input_char.
  apply Ascii.eqb_neq in Hlast. rewrite Hlast.
  cbn [set_last_line_char input_pos_]. rewrite Hpos. reflexivity.
Qed.

(** Chunking invariance where it holds: a byte sequence that completes no
    line leaves the same engine and the same echo however it is cut into
    chunks. *)
Lemma feed_chunks_no_completion chunks e e' out :
  input_loop (concat chunks) e = (e', out, None) ->
  feed_chunks chunks e = (e', out, []).
Proof.
  revert e e' out.
  induction chunks as [|read_buffer chunks IH]; intros e e' out; cbn [concat feed_chunks].
  - by intros [= -> <-].
  - rewrite input_loop_app, get_command_input_loop.
    destruct (input_loop read_buffer e) as [[e1 out1] [result|]]; [done|].
    destruct (input_loop (concat chunks) e1) as [[e2 out2] r] eqn:Hrest.
    intros [= -> <- ->]. by rewrite (IH _ _ _ Hrest).
Qed.

(** A line of regular characters followed by CR LF, cut into chunks in any
    way, completes exactly one line. *)
Lemma feed_chunks_crlf chunks : forall line e,
  Forall regular line ->
  (0 < input_pos_ e)%nat \/ line <> [] ->
  concat chunks = line ++ [CR; LF] ->
  length (feed_chunks chunks e).2 = 1%nat.
Proof.
  induction chunks as [|read_buffer chunks IH]; intros line e Hline Hne Hcat.
  { by destruct line. }
  cbn [concat] in Hcat. cbn [feed_chunks]. rewrite get_command_input_loop.
  apply app_eq_inv in Hcat as [(k & -> & Hrest)|(k & -> & Hrest)].
  - (* the chunk reaches the terminators *)
    destruct (input_loop_regular line e Hline) as (e1 & out1 & Hloop & _ & Hpos).
    specialize (Hpos Hne).
    destruct k as [|c k].
    { (* it ends just before CR *)
      rewrite app_nil_r, Hloop. simpl in Hrest.
      specialize (IH [] e1 (Forall_nil_2 _) (or_introl Hpos) (eq_sym Hrest)).
      by destruct (feed_chunks chunks e1) as [[e2 out2] lines]. }
    injection Hrest as <- Hrest.
    destruct (input_char_CR_completes e1 Hpos) as (e2 & result & Hcr & Hlast & Hpos2).
    rewrite input_loop_app, Hloop. cbn [input_loop]. rewrite Hcr.
    assert (input_loop (concat chunks) e2
            = (if decide (concat chunks = []) then e2 else set_last_line_char LF e2,
               [], None)) as Hnone.
    { destruct k as [|c k].
      - simpl in Hrest. rewrite <- Hrest. cbn [input_loop].
        by rewrite (input_char_LF_after_CR e2 Hlast).
      - injection Hrest as _ Hrest. destruct k; [|done].
        simpl in Hrest. by rewrite <- Hrest. }
    rewrite (feed_chunks_no_completion _ _ _ _ Hnone). done.
  - (* the chunk ends within the line *)
    apply Forall_app in Hline as [Hrb Hk].
    destruct (input_loop_regular read_buffer e Hrb) as (e1 & out1 & -> & _ & Hpos).
    specialize (IH k e1 Hk).
    destruct (feed_chunks chunks e1) as [[e2 out2] lines]. cbn in *.
    apply IH; [|done].
    destruct read_buffer as [|c rb].
    + destruct Hne as [?|Hne]; [left; apply Hpos; by left | by right].
    + left. apply Hpos. by right.
Qed.

End Accumulator.

(** C5. A line of regular characters ended by CR LF completes exactly
    one line, however the bytes are cut into chunks. An LF produces no
    echo and no line exactly when the last terminator byte that the
    accumulator processed was CR; it is then only recorded as the last
    terminator, and [last_line_char_] is always the last CR or LF that was
    processed. On an empty line, LF LF not preceded by CR gives two newline
    echoes, leaves the prompt flag cleared and completes no line. *)
Theorem crlf_completes_one_line (ContextType : Type) :
  (forall (e : CliEngine ContextType) (line : list ascii)
          (chunks : list (list ascii)),
      Forall regular line -> line <> [] ->
      concat chunks = line ++ [CR; LF] ->
      length (feed_chunks chunks e).2 = 1%nat)
  /\ (forall e : CliEngine ContextType,
         (input_char LF e).1.2 = [] <-> last_line_char_ e = CR)
  /\ (forall e : CliEngine ContextType,
         last_line_char_ e = CR ->
         input_char LF e = (set_last_line_char LF e, [], None))
  /\ (forall (c : ascii) (e : CliEngine ContextType),
         last_line_char_ (input_char c e).1.1
         = if Ascii.eqb c CR || Ascii.eqb c LF then c else last_line_char_ e)
  /\ (forall (e : CliEngine ContextType) (chunks : list (list ascii)),
         input_pos_ e = 0%nat -> last_line_char_ e <> CR ->
         concat chunks = [LF; LF] ->
         feed_chunks chunks e
         = (set_prompt_sent false (set_last_line_char LF e),
            [Io_println; Io_println], [])).
Proof.
  split; [|split; [|split; [|split]]].
  - intros e line chunks Hline Hne Hcat.
    apply (feed_chunks_crlf chunks line e Hline); [by right | done].
  - intros e. split.
    + intros Hout. destruct (Ascii.eqb_spec (last_line_char_ e) CR) as [|Hne]; [done|].
      exfalso. revert Hout. unfold input_char.
      apply Ascii.eqb_neq in Hne. rewrite Hne.
      cbn [Ascii.eqb LF BS DEL CR orb andb].
      change (Ascii.eqb "010" "008") with false.
      change (Ascii.eqb "010" "127") with false.
      change (Ascii.eqb "010" "013") with false.
      change (Ascii.eqb "010" "010") with true.
      cbn [orb andb]. by destruct (0 <? _)%nat.
    + intros H. by rewrite (input_char_LF_after_CR e H).
  - apply input_char_LF_after_CR.
  - intros c e. unfold input_char.
    destruct (Ascii.eqb_spec c BS) as [->|_]; [by destruct (0 <? _)%nat|].
    destruct (Ascii.eqb_spec c DEL) as [->|_]; [by destruct (0 <? _)%nat|].
    cbn [orb].
    destruct (Ascii.eqb c CR || Ascii.eqb c LF).
    + destruct (Ascii.eqb c LF && Ascii.eqb (last_line_char_ e) CR); [done|].
      cbn [set_last_line_char input_pos_]. by destruct (0 <? _)%nat.
    + by destruct (_ <? _)%nat.
  - intros e chunks Hpos Hlast Hcat.
    apply feed_chunks_no_completion. rewrite Hcat. cbn [input_loop].
    rewrite (input_char_LF_empty e Hlast Hpos).
    rewrite input_char_LF_empty; [done | by cbn | by cbn].
Qed.

Lemma crlf_completes_one_line_witness :
  length (feed_chunks [lit "led"; lit " on" ++ [CR]; [LF]]
            (CliEngine_new tt (replicate CMD_BUFFER_SIZE NUL))).2 = 1%nat.
Proof.
  apply (proj1 (crlf_completes_one_line unit) _ (lit "led on")).
  - repeat constructor.
  - discriminate.
  - reflexivity.
Defined.

(** [last_line_char_] changes at terminators only: after a line ended by
    CR alone, the LF that ends the next line is still taken for the second
    half of a pair, and that line waits for another terminator. *)
Example lf_line_after_cr_line_example :
  let e := CliEngine_new tt (replicate CMD_BUFFER_SIZE NUL) in
  let r := feed_chunks [lit "a" ++ [CR]; lit "b" ++ [LF]] e in
  map (fun args => arg args 0) r.2 = [lit "a"]
  /\ input_pos_ r.1.1 = 1%nat
  /\ map (fun args => arg args 0) (feed_chunks [[LF]] r.1.1).2 = [lit "b"].
Proof. repeat split; vm_compute; reflexivity. Qed.

(** C1. The claim reads: feeding a byte sequence in one call or cut into
    chunks over successive calls yields the same completed lines.
    [get_command_input] returns at the first completed line and the rest of
    its local [read_buffer] is lost: for the bytes "a\nb\n" one call
    completes the line "a" only, and the calls with "a\n" and "b\n"
    complete "a" and "b". With an empty command table [process_input]
    dispatches one invocation in the first case and two in the second. *)
Theorem chunking_changes_completed_lines :
  let e := CliEngine_new tt (replicate CMD_BUFFER_SIZE NUL) in
  let whole := lit "a" ++ [LF] ++ lit "b" ++ [LF] in
  let pieces := [lit "a" ++ [LF]; lit "b" ++ [LF]] in
  concat pieces = whole
  /\ map (fun args => arg args 0) (feed_chunks [whole] e).2 = [lit "a"]
  /\ map (fun args => arg args 0) (feed_chunks pieces e).2 = [lit "a"; lit "b"]
  /\ map (fun args => arg args 0) (poll [] (lit "> ") [whole] e).2 = [lit "a"]
  /\ map (fun args => arg args 0) (poll [] (lit "> ") pieces e).2
     = [lit "a"; lit "b"].
Proof. repeat split; vm_compute; reflexivity. Qed.

(** ** The session driver *)

Section Driver.

Context {ContextType : Type}.
Variable commands : list (CommandDefinition ContextType).
Variable prompt : list ascii.
Implicit Types (e : CliEngine ContextType) (args : CommandArgs).

Lemma set_context_same e : set_context (context_ e) e = e.
Proof. by destruct e. Qed.

(** [dispatch_command] depends on the engine through the application
    context only, and it changes nothing else. *)
Lemma dispatch_loop_context (cmds : list (CommandDefinition ContextType)) args e :
  dispatch_loop cmds args e =
  let '(handled, e0, out) :=
    dispatch_loop cmds args (CliEngine_new (context_ e) []) in
  (handled, set_context (context_ e0) e, out).
Proof.
  induction cmds as [|cmd cmds IH]; cbn [dispatch_loop].
  - cbn. by rewrite set_context_same.
  - destruct (strcmp_eq (argv_row args 0) (name cmd)); [|done].
    cbn [CliEngine_new context_].
    by destruct (execute cmd args (context_ e)) as [ctx out].
Qed.

Lemma dispatch_command_context args e :
  dispatch_command commands args e =
  let '(handled, e0, out) :=
    dispatch_command commands args (CliEngine_new (context_ e) []) in
  (handled, set_context (context_ e0) e, out).
Proof.
  unfold dispatch_command.
  destruct (argc args =? 0); [cbn; by rewrite set_context_same|].
  destruct (strcmp_eq (argv_row args 0) (lit "help"));
    [cbn; by rewrite set_context_same|].
  destruct (command_count_ _ commands =? 0)%nat;
    [cbn; by rewrite set_context_same|].
  apply dispatch_loop_context.
Qed.

Lemma dispatch_command_input_buffer args e :
  input_buffer_ (dispatch_command commands args e).1.2 = input_buffer_ e.
Proof.
  rewrite dispatch_command_context.
  by destruct (dispatch_command commands args _) as [[handled e0] out].
Qed.

(** What [process_input] does when the bytes of the call complete a line
    that has at least one argument. *)
Lemma process_input_dispatch (read_buffer : list ascii) e e0 out0 e1 out1 args
    handled e2 out2 :
  prompt_if_needed prompt e = (e0, out0) ->
  get_command_input read_buffer e0 = (e1, out1, Some args) ->
  0 < argc args ->
  dispatch_command commands args e1 = (handled, e2, out2) ->
  process_input commands prompt read_buffer e
  = (set_prompt_sent false e2,
     out0 ++ out1 ++ out2
     ++ (if negb handled
         then [Io_print (lit "Command " ++ [DQUOTE]);
               Io_print (argv_row args 0);
               Io_println_str not_found_tail]
         else []),
     Some args).
Proof.
  intros Hp Hg Hargc Hd. unfold process_input. rewrite Hp, Hg.
  cbn [returned_args]. apply Z.ltb_lt in Hargc. by rewrite Hargc, Hd.
Qed.

(** The echo of the accumulator never contains the report. *)
Lemma count_not_found_app (out1 out2 : list IoCall) :
  count_not_found (out1 ++ out2)
  = (count_not_found out1 + count_not_found out2)%nat.
Proof. induction out1 as [|call out1 IH]; simpl; [done|]. rewrite IH. lia. Qed.

Lemma input_char_no_report (c : ascii) e :
  count_not_found (input_char c e).1.2 = 0%nat.
Proof.
  unfold input_char.
  repeat match goal with
         | |- context [if ?b then _ else _] => destruct b
         end; reflexivity.
Qed.

Lemma input_loop_no_report (read_buffer : list ascii) e :
  count_not_found (input_loop read_buffer e).1.2 = 0%nat.
Proof.
  revert e. induction read_buffer as [|c rb IH]; intros e; cbn [input_loop]; [done|].
  pose proof (input_char_no_report c e) as Hc.
  destruct (input_char c e) as [[e1 out1] [result|]]; [done|].
  specialize (IH e1). destruct (input_loop rb e1) as [[e2 out2] r].
  cbn in *. rewrite count_not_found_app. lia.
Qed.

Lemma prompt_if_needed_no_report e :
  count_not_found (prompt_if_needed prompt e).2 = 0%nat.
Proof. unfold prompt_if_needed. by destruct (negb (prompt_sent_ e)). Qed.

(** The characters of the accumulated line: if [Q] holds of NUL, of the
    bytes that are fed and of the cells of [input_buffer_], it holds of the
    cells of [input_buffer_] afterwards and of every cell of a completed
    invocation. *)
Lemma parse_command_line_chars (Q : ascii -> Prop) (input : list ascii) :
  Q NUL -> Forall Q input -> args_inv Q (parse_command_line input).
Proof.
  intros HN Hin. unfold parse_command_line.
  apply parse_loop_inv; [done | | by apply args_inv_new].
  eapply Forall_impl; [apply strncpy_temp_chars|].
  intros c [->|Hc]; [done|]. by apply (proj1 (Forall_forall _ _) Hin).
Qed.

Lemma input_char_chars (Q : ascii -> Prop) (c : ascii) e :
  Q NUL -> Q c -> Forall Q (input_buffer_ e) ->
  Forall Q (input_buffer_ (input_char c e).1.1)
  /\ forall args, (input_char c e).2 = Some args -> args_inv Q args.
Proof.
  intros HN Hc Hbuf. unfold input_char.
  destruct (Ascii.eqb c BS || Ascii.eqb c DEL).
  { destruct (0 <? input_pos_ e)%nat; engine_simpl; (split; [|done]); [|done].
    by apply Forall_insert. }
  destruct (Ascii.eqb c CR || Ascii.eqb c LF).
  - destruct (Ascii.eqb c LF && Ascii.eqb (last_line_char_ e) CR);
      [by engine_simpl|].
    engine_simpl.
    destruct (0 <? input_pos_ e)%nat; engine_simpl; [|done].
    split; [by apply Forall_replicate|].
    intros args [= <-]. apply parse_command_line_chars; [done|].
    by apply Forall_insert.
  - destruct (input_pos_ e <? CMD_BUFFER_SIZE - 1)%nat; engine_simpl; [|done].
    split; [|done]. by apply Forall_insert.
Qed.

Lemma input_loop_chars (Q : ascii -> Prop) (read_buffer : list ascii) e :
  Q NUL -> Forall Q read_buffer -> Forall Q (input_buffer_ e) ->
  Forall Q (input_buffer_ (input_loop read_buffer e).1.1)
  /\ forall args, (input_loop read_buffer e).2 = Some args -> args_inv Q args.
Proof.
  intros HN Hrb. revert e.
  induction Hrb as [|c rb Hc _ IH]; intros e Hbuf; cbn [input_loop]; [done|].
  destruct (input_char_chars Q c e HN Hc Hbuf) as [Hbuf1 Hargs1].
  destruct (input_char c e) as [[e1 out1] [result|]]; [done|].
  specialize (IH e1 Hbuf1). by destruct (input_loop rb e1) as [[e2 out2] r].
Qed.

Lemma process_input_chars (Q : ascii -> Prop) (read_buffer : list ascii) e :
  Q NUL -> Forall Q read_buffer -> Forall Q (input_buffer_ e) ->
  Forall Q (input_buffer_ (process_input commands prompt read_buffer e).1.1)
  /\ forall args,
       (process_input commands prompt read_buffer e).2 = Some args ->
       args_inv Q args.
Proof.
  intros HN Hrb Hbuf. unfold process_input.
  assert (Forall Q (input_buffer_ (prompt_if_needed prompt e).1)) as Hbuf0.
  { unfold prompt_if_needed. by destruct (negb (prompt_sent_ e)). }
  destruct (prompt_if_needed prompt e) as [e0 out0]. cbn [fst] in Hbuf0.
  rewrite get_command_input_loop.
  destruct (input_loop_chars Q read_buffer e0 HN Hrb Hbuf0) as [Hbuf1 Hargs].
  destruct (input_loop read_buffer e0) as [[e1 out1] r]. cbn [fst snd] in *.
  destruct (0 <? argc (returned_args r)); [|done].
  pose proof (dispatch_command_input_buffer (returned_args r) e1) as Hd.
  destruct (dispatch_command commands (returned_args r) e1) as [[handled e2] out2].
  cbn in *. rewrite Hd. split; [done|].
  intros args [= <-]. destruct r as [result|]; [by apply Hargs|].
  by apply args_inv_new.
Qed.

Lemma poll_chars (Q : ascii -> Prop) (chunks : list (list ascii)) e :
  Q NUL -> Forall Q (concat chunks) -> Forall Q (input_buffer_ e) ->
  Forall (args_inv Q) (poll commands prompt chunks e).2.
Proof.
  intros HN. revert e.
  induction chunks as [|read_buffer chunks IH]; intros e Hcat Hbuf;
    cbn [poll concat] in *; [done|].
  apply Forall_app in Hcat as [Hrb Hcat].
  destruct (process_input_chars Q read_buffer e HN Hrb Hbuf) as [Hbuf1 Hargs].
  destruct (process_input commands prompt read_buffer e) as [[e1 out1] d].
  specialize (IH e1 Hcat Hbuf1).
  destruct (poll commands prompt chunks e1) as [[e2 out2] ds].
  cbn [fst snd] in *. apply Forall_app. split; [|done].
  destruct d as [args|]; [|done]. apply Forall_cons. split; [by apply Hargs|done].
Qed.

End Driver.


(** A call that dispatches nothing writes the prompt and the echo only. *)
Lemma process_input_no_dispatch (ContextType : Type)
    (commands : list (CommandDefinition ContextType)) (prompt : list ascii)
    (read_buffer : list ascii) (e : CliEngine ContextType) :
  argc (returned_args
          (get_command_input read_buffer (prompt_if_needed prompt e).1).2) = 0 ->
  (process_input commands prompt read_buffer e).2 = None
  /\ (process_input commands prompt read_buffer e).1.2
     = (prompt_if_needed prompt e).2
       ++ (get_command_input read_buffer (prompt_if_needed prompt e).1).1.2.
Proof.
  unfold process_input.
  destruct (prompt_if_needed prompt e) as [e0 out0]. cbn [fst snd].
  destruct (get_command_input read_buffer e0) as [[e1 out1] r]. cbn [fst snd].
  by intros ->.
Qed.




(** C8 (amended). [dispatch_command] returns false, touches nothing and
    writes nothing when [argc = 0], and when [argv[0]] is not "help" and
    equals the name of no entry of the user table. For every invocation of
    the second kind that [process_input] dispatches (it dispatches only
    invocations with [argc >= 1]), the sink receives the report
    [Command <argv[0]> not found. ...] once, as the last three calls of
    the call of [process_input]. A completed line whose invocation has
    [argc = 0] is not dispatched and the sink receives no report. *)
Theorem dispatch_command_unhandled (ContextType : Type)
    (commands : list (CommandDefinition ContextType)) (prompt : list ascii) :
  (forall (args : CommandArgs) (e : CliEngine ContextType),
      argc args = 0
      \/ (strcmp_eq (argv_row args 0) (lit "help") = false
          /\ no_user_match commands args) ->
      dispatch_command commands args e = (false, e, []))
  /\ (forall (read_buffer : list ascii) (e : CliEngine ContextType)
             (args : CommandArgs),
         (process_input commands prompt read_buffer e).2 = Some args ->
         strcmp_eq (argv_row args 0) (lit "help") = false ->
         no_user_match commands args ->
         1 <= argc args
         /\ (exists pre,
               (process_input commands prompt read_buffer e).1.2
               = pre ++ [Io_print (lit "Command " ++ [DQUOTE]);
                         Io_print (argv_row args 0);
                         Io_println_str not_found_tail]
               /\ count_not_found pre = 0%nat)
         /\ count_not_found (process_input commands prompt read_buffer e).1.2
            = 1%nat)
  /\ (forall (read_buffer : list ascii) (e : CliEngine ContextType)
             (args : CommandArgs),
         (get_command_input read_buffer (prompt_if_needed prompt e).1).2
         = Some args ->
         argc args = 0 ->
         (process_input commands prompt read_buffer e).2 = None
         /\ count_not_found (process_input commands prompt read_buffer e).1.2
            = 0%nat).
Proof.
  split; [apply dispatch_command_no_match|]. split; cycle 1.
  { intros read_buffer e args Hline Hargc.
    destruct (process_input_no_dispatch _ commands prompt read_buffer e)
      as [Hd Hout]; [by rewrite Hline|].
    split; [done|]. rewrite Hout, count_not_found_app.
    rewrite (prompt_if_needed_no_report prompt e).
    rewrite get_command_input_loop. by rewrite input_loop_no_report. }
  intros read_buffer e args. unfold process_input.
  pose proof (prompt_if_needed_no_report prompt e) as Hc0.
  destruct (prompt_if_needed prompt e) as [e0 out0].
  rewrite get_command_input_loop.
  pose proof (input_loop_no_report read_buffer e0) as Hc1.
  destruct (input_loop read_buffer e0) as [[e1 out1] r]. cbn [fst snd] in *.
  destruct (Z.ltb_spec 0 (argc (returned_args r))) as [Hargc|_]; [|done].
  destruct (dispatch_command commands (returned_args r) e1)
    as [[handled e2] out2] eqn:Hd.
  cbn [fst snd]. intros [= <-] Hhelp Hno.
  rewrite (dispatch_command_no_match _ commands (returned_args r) e1
             (or_intror (conj Hhelp Hno))) in Hd.
  injection Hd as <- <- <-. cbn [negb app].
  split; [lia|]. split.
  - exists (out0 ++ out1). split; [by rewrite <- (assoc_L (++))|].
    rewrite count_not_found_app. lia.
  - rewrite !count_not_found_app, Hc0, Hc1. reflexivity.
Qed.

Lemma dispatch_command_unhandled_witness :
  count_not_found
    (process_input
       [mkCommandDefinition (lit "led")
          (fun (_ : CommandArgs) (ctx : nat) => (S ctx, [Io_println]))
          (lit "switch the led")]
       (lit "> ") (lit "lamp on" ++ [CR])
       (CliEngine_new 0%nat (replicate CMD_BUFFER_SIZE NUL))).1.2 = 1%nat.
Proof.
  apply (proj1 (proj2 (dispatch_command_unhandled nat _ (lit "> "))) _ _
           (parse_command_line (lit "lamp on"))).
  - vm_compute. reflexivity.
  - vm_compute. reflexivity.
  - repeat constructor.
Defined.

(** C8, as stated, fails for a line of spaces: the invocation of "  \r"
    has [argc = 0], its [argv[0]] is not "help" and matches no entry, and
    [dispatch_command] returns false on it; [process_input] does not
    dispatch it and the sink receives no report. *)
Lemma blank_line_not_reported :
  let commands :=
    [mkCommandDefinition (lit "led")
       (fun (_ : CommandArgs) (ctx : nat) => (S ctx, [Io_println]))
       (lit "switch the led")] in
  let e := CliEngine_new 0%nat (replicate CMD_BUFFER_SIZE NUL) in
  let r := get_command_input [SPC; SPC; CR] (prompt_if_needed (lit "> ") e).1 in
  r.2 = Some CommandArgs_new
  /\ argc CommandArgs_new = 0
  /\ strcmp_eq (argv_row CommandArgs_new 0) (lit "help") = false
  /\ no_user_match commands CommandArgs_new
  /\ (dispatch_command commands CommandArgs_new r.1.1).1.1 = false
  /\ (process_input commands (lit "> ") [SPC; SPC; CR] e).1.2
     = [Io_send_prompt (lit "> "); Io_put_byte SPC; Io_put_byte SPC; Io_println]
  /\ count_not_found
       (process_input commands (lit "> ") [SPC; SPC; CR] e).1.2 = 0%nat.
Proof.
  repeat split; try (vm_compute; reflexivity).
  repeat constructor.
Qed.

(** C10. For every command line, [execute_command] returns an engine whose
    line buffer, cursor, last terminator and prompt flag are those of the
    engine it was called on; its result, what it writes to the sink and
    the context it leaves do not depend on these four members: called on
    any other values of them, it returns the same result and sink calls
    and leaves those other values in place. *)
Theorem execute_command_frame (ContextType : Type)
    (commands : list (CommandDefinition ContextType))
    (command_line : list ascii) (e : CliEngine ContextType) :
  let '(handled, e', out) := execute_command commands command_line e in
  input_buffer_ e' = input_buffer_ e
  /\ input_pos_ e' = input_pos_ e
  /\ last_line_char_ e' = last_line_char_ e
  /\ prompt_sent_ e' = prompt_sent_ e
  /\ forall (buf : list ascii) (pos : nat) (c : ascii) (sent : bool),
       execute_command commands command_line
         (mkCliEngine (context_ e) buf pos c sent)
       = (handled, mkCliEngine (context_ e') buf pos c sent, out).
Proof.
  unfold execute_command.
  rewrite (dispatch_command_context commands _ e).
  destruct (dispatch_command commands (parse_command_line command_line)
              (CliEngine_new (context_ e) [])) as [[handled e0] out] eqn:Hd.
  repeat (split; [done|]).
  intros buf pos c sent. rewrite dispatch_command_context.
  cbn [context_]. by rewrite Hd.
Qed.

(** C9. [reset_session] leaves the engine as a newly constructed one with
    a zeroed line buffer: cursor 0, no last terminator, prompt flag
    cleared; nothing of the earlier line is left. Hence, for every
    sequence of chunks fed to [process_input] after the reset, every
    invocation that is dispatched is well formed and each of its
    characters is NUL or one of the bytes fed after the reset. *)
Theorem reset_session_discards_line (ContextType : Type)
    (commands : list (CommandDefinition ContextType)) (prompt : list ascii)
    (e : CliEngine ContextType) :
  reset_session e = CliEngine_new (context_ e) (replicate CMD_BUFFER_SIZE NUL)
  /\ forall chunks : list (list ascii),
       Forall (args_inv (fun c => c = NUL \/ c ∈ concat chunks))
              (poll commands prompt chunks (reset_session e)).2.
Proof.
  split; [reflexivity|].
  intros chunks. apply poll_chars.
  - by left.
  - apply Forall_forall. intros c Hc. by right.
  - unfold reset_session. engine_simpl. apply Forall_replicate. by left.
Qed.

(** A line typed before the reset does not reach the command that is
    typed after it. *)
Example reset_session_example :
  let e := CliEngine_new tt (replicate CMD_BUFFER_SIZE NUL) in
  let e1 := (poll [] (lit "> ") [lit "abc"] e).1.1 in
  input_pos_ e1 = 3%nat
  /\ map (fun args => arg args 0)
         (poll [] (lit "> ") [lit "de" ++ [CR]] e1).2 = [lit "abcde"]
  /\ map (fun args => arg args 0)
         (poll [] (lit "> ") [lit "de" ++ [CR]] (reset_session e1)).2
     = [lit "de"].
Proof. repeat split; vm_compute; reflexivity. Qed.

(** ** The framing filter of the WiFi adapter *)

Section FramingFilter.

Import Stdlib.Init.Byte.
Import ESP32WiFiIo.

(** The loop from [read_pos], [write_pos]: the kept bytes are appended to
    the first [write_pos] cells, the cells from [result] on are untouched.
    [write_pos] trails [read_pos], so a write never reaches a byte that is
    still to be read. *)
Lemma filter_loop_spec (fuel : nat) :
  forall (result read_pos write_pos : nat) (buffer : list byte),
    (write_pos <= read_pos)%nat -> (read_pos <= result)%nat ->
    (result <= length buffer)%nat -> (result - read_pos <= fuel)%nat ->
    exists buffer' write_pos',
      filter_loop fuel (Z.of_nat result) (Z.of_nat read_pos) write_pos buffer
      = (buffer', write_pos')
      /\ length buffer' = length buffer
      /\ (write_pos' <= result)%nat
      /\ take write_pos' buffer'
         = take write_pos buffer
           ++ strip_control_sequences
                (take (result - read_pos) (drop read_pos buffer))
      /\ drop result buffer' = drop result buffer.
Proof.
  assert (forall (result r w : nat) (buffer : list byte),
             (w <= r)%nat -> (result <= r)%nat -> (r <= result)%nat ->
             length buffer = length buffer /\ (w <= result)%nat
             /\ take w buffer
                = take w buffer
                  ++ strip_control_sequences (take (result - r) (drop r buffer))
             /\ drop result buffer = drop result buffer) as Hstop.
  { intros result r w buffer Hw Hr1 Hr2.
    replace (result - r)%nat with 0%nat by lia.
    rewrite take_0. cbn. rewrite app_nil_r. repeat split; lia. }
  induction fuel as [|fuel IH]; intros result r w buffer Hw Hr Hlen Hfuel;
    cbn [filter_loop].
  { exists buffer, w. split; [done|]. apply Hstop; lia. }
  destruct (Z.ltb_spec (Z.of_nat r) (Z.of_nat result)) as [Hlt|Hge];
    [|exists buffer, w; split; [done|]; apply Hstop; lia].
  rewrite Nat2Z.id.
  destruct (lookup_lt_is_Some_2 buffer r ltac:(lia)) as [c Hc].
  rewrite (nth_lookup_Some _ _ _ _ Hc), (drop_S _ _ _ Hc).
  replace (result - r)%nat with (S (result - S r)) by lia. cbn [take].
  cbn [strip_control_sequences].
  destruct (Byte.eqb c xff) eqn:Hff.
  - destruct (Z.ltb_spec (Z.of_nat r + 2) (Z.of_nat result)) as [Hlt2|Hge2].
    + replace (Z.of_nat r + 2 + 1) with (Z.of_nat (r + 3)) by lia.
      destruct (IH result (r + 3)%nat w buffer) as (b' & w' & -> & Hl & Hw' & Ht & Hd);
        [lia..|].
      exists b', w'. split; [done|]. split; [done|]. split; [done|]. split; [|done].
      rewrite Ht. f_equal.
      destruct (lookup_lt_is_Some_2 buffer (S r) ltac:(lia)) as [x Hx].
      destruct (lookup_lt_is_Some_2 buffer (S (S r)) ltac:(lia)) as [y Hy].
      rewrite (drop_S _ _ _ Hx), (drop_S _ _ _ Hy).
      replace (result - S r)%nat with (S (S (result - (r + 3)))) by lia.
      cbn [take]. by replace (S (S (S r))) with (r + 3)%nat by lia.
    + exists buffer, w. split; [done|]. split; [done|]. split; [lia|].
      split; [|done].
      assert (result - S r <= 1)%nat as Hk by lia.
      destruct (result - S r)%nat as [|[|k]]; [| |lia]; cbn [take].
      * by rewrite app_nil_r.
      * destruct (drop (S r) buffer); cbn [take]; by rewrite app_nil_r.
  - replace (Z.of_nat r + 1) with (Z.of_nat (S r)) by lia.
    destruct (IH result (S r) (S w) (<[w := c]> buffer))
      as (b' & w' & -> & Hl & Hw' & Ht & Hd);
      [lia | lia | by rewrite length_insert | lia |].
    exists b', w'. split; [done|].
    rewrite length_insert in Hl. split; [done|]. split; [done|].
    rewrite drop_insert_lt in Hd by lia. split; [|done].
    rewrite Ht, drop_insert_lt by lia.
    rewrite (take_S_r _ _ c) by (apply list_lookup_insert_eq; lia).
    rewrite take_insert_ge by lia. by rewrite <- (assoc_L (++)).
Qed.

(** C6. When the adapter is connected and [recv] delivers [result > 0]
    bytes into the buffer, [get_bytes] returns the number of data bytes
    that are left once every escape byte 0xFF is removed with the two
    bytes that follow it, a sequence cut short by the end of the received
    bytes being dropped; these data bytes are the first cells of the
    buffer, in order and without gaps; the cells after the received bytes
    are untouched and the adapter keeps nothing for the next call (its
    members are unchanged). The received bytes [41 FF FB 01 42] give the
    payload [41 42] of length 2, and [41 FF FB] gives [41]. *)
Theorem get_bytes_strips_control_sequences (EAGAIN EWOULDBLOCK : Z) :
  (forall (buffer : list byte) (rx : recv_outcome) (io : ESP32WiFiIo.t),
      connected_ io = true -> 0 <= socket_fd_ io ->
      0 < recv_result rx ->
      recv_result rx <= Z.of_nat (length (recv_buffer rx)) ->
      let received := take (Z.to_nat (recv_result rx)) (recv_buffer rx) in
      let '(io', buffer', count) :=
        get_bytes EAGAIN EWOULDBLOCK buffer rx io in
      io' = io
      /\ count = length (strip_control_sequences received)
      /\ take count buffer' = strip_control_sequences received
      /\ length buffer' = length (recv_buffer rx)
      /\ drop (Z.to_nat (recv_result rx)) buffer'
         = drop (Z.to_nat (recv_result rx)) (recv_buffer rx))
  /\ (let '(_, buffer', count) :=
        get_bytes EAGAIN EWOULDBLOCK (replicate 32 x00)
          (mkRecv 5 0 ([x41; xff; xfb; x01; x42] ++ replicate 27 x00))
          (ESP32WiFiIo.mk 3 true) in
      count = 2%nat /\ take count buffer' = [x41; x42])
  /\ (let '(_, buffer', count) :=
        get_bytes EAGAIN EWOULDBLOCK (replicate 32 x00)
          (mkRecv 3 0 ([x41; xff; xfb] ++ replicate 29 x00))
          (ESP32WiFiIo.mk 3 true) in
      count = 1%nat /\ take count buffer' = [x41]).
Proof.
  split; [|split; [by vm_compute | by vm_compute]].
  intros buffer rx io Hconn Hfd Hres Hlen received. unfold get_bytes.
  rewrite Hconn. cbn [negb orb].
  destruct (Z.ltb_spec (socket_fd_ io) 0) as [?|_]; [lia|].
  destruct (Z.leb_spec (recv_result rx) 0) as [?|_]; [lia|].
  destruct (Z.eqb_spec (recv_result rx) 0) as [?|_]; [lia|].
  destruct (filter_loop_spec (Z.to_nat (recv_result rx))
              (Z.to_nat (recv_result rx)) 0 0 (recv_buffer rx))
    as (b' & w' & Hloop & Hl & Hw & Ht & Hd); [lia..|].
  rewrite Z2Nat.id in Hloop by lia. change (Z.of_nat 0) with 0 in Hloop.
  rewrite Hloop.
  rewrite Nat.sub_0_r, take_0, drop_0, app_nil_l in Ht. fold received in Ht.
  split; [done|]. split; [|done].
  rewrite <- Ht, length_take. lia.
Qed.

Lemma get_bytes_strips_control_sequences_witness :
  let rx := mkRecv 7 0 [x6c; xff; xfd; x03; x65; x64; xff; x00] in
  let io := ESP32WiFiIo.mk 3 true in
  let received := take (Z.to_nat (recv_result rx)) (recv_buffer rx) in
  let '(io', buffer', count) := get_bytes 11 11 (replicate 8 x00) rx io in
  io' = io
  /\ count = length (strip_control_sequences received)
  /\ take count buffer' = strip_control_sequences received
  /\ length buffer' = length (recv_buffer rx)
  /\ drop (Z.to_nat (recv_result rx)) buffer'
     = drop (Z.to_nat (recv_result rx)) (recv_buffer rx).
Proof.
  intros rx io.
  apply (proj1 (get_bytes_strips_control_sequences 11 11)
           (replicate 8 x00) rx io).
  - reflexivity.
  - vm_compute. discriminate.
  - reflexivity.
  - vm_compute. discriminate.
Defined.

Example get_bytes_example :
  get_bytes 11 11 (replicate 8 x00)
    (mkRecv 7 0 [x6c; xff; xfd; x03; x65; x64; xff; x00])
    (ESP32WiFiIo.mk 3 true)
  = (ESP32WiFiIo.mk 3 true, [x6c; x65; x64; x03; x65; x64; xff; x00], 3%nat).
Proof. reflexivity. Qed.

End FramingFilter.

(** * Further properties of the tokenizer *)

Lemma c_str_no_nul (p : list ascii) : Forall (fun c => c <> NUL) (c_str p).
Proof.
  induction p as [|c p IH]; cbn [c_str]; [done|].
  destruct (Ascii.eqb_spec c NUL); [done|]. by apply Forall_cons.
Qed.

Lemma c_str_id (p : list ascii) : Forall (fun c => c <> NUL) p -> c_str p = p.
Proof.
  induction 1 as [|c p Hc _ IH]; cbn [c_str]; [done|].
  apply Ascii.eqb_neq in Hc. by rewrite Hc, IH.
Qed.

Lemma c_str_app_nul (p rest : list ascii) :
  Forall (fun c => c <> NUL) p -> c_str (p ++ NUL :: rest) = p.
Proof.
  induction 1 as [|c p Hc _ IH]; cbn [c_str app]; [done|].
  apply Ascii.eqb_neq in Hc. by rewrite Hc, IH.
Qed.

Lemma c_str_Forall (P : ascii -> Prop) (p : list ascii) :
  Forall P p -> Forall (fun c => P c /\ c <> NUL) (c_str p).
Proof.
  induction 1 as [|c p Hc _ IH]; cbn [c_str]; [done|].
  destruct (Ascii.eqb_spec c NUL); [done|]. by apply Forall_cons.
Qed.

(** The rows from [argc] on are as the constructor left them. *)
Lemma parse_loop_unused_rows (fuel : nat) (token : list ascii)
    (args : CommandArgs) :
  0 <= argc args ->
  (forall i, (Z.to_nat (argc args) <= i)%nat ->
             argv_row args i = argv_row CommandArgs_new i) ->
  forall i, (Z.to_nat (argc (parse_loop fuel token args)) <= i)%nat ->
            argv_row (parse_loop fuel token args) i = argv_row CommandArgs_new i.
Proof.
  revert token args.
  induction fuel as [|fuel IH]; intros token args Hargc Hrows;
    cbn [parse_loop]; [done|].
  destruct (negb (Ascii.eqb (deref token) NUL) && (argc args <? MAX_ARGS - 1));
    [|done].
  destruct (Ascii.eqb (deref (skip_spaces token)) NUL); [done|].
  destruct (copy_token (skip_spaces token)
              (argv_row args (Z.to_nat (argc args))) 0) as [[token' row'] n'].
  apply IH; cbn [argc argv]; [lia|].
  intros i Hi. rewrite <- (Hrows i) by lia. unfold argv_row. cbn [argv].
  rewrite !nth_lookup, list_lookup_insert_ne by lia. done.
Qed.

Lemma parse_command_line_unused_rows (input : list ascii) (i : nat) :
  (Z.to_nat (argc (parse_command_line input)) <= i)%nat ->
  argv_row (parse_command_line input) i = argv_row CommandArgs_new i.
Proof.
  unfold parse_command_line. apply parse_loop_unused_rows.
  - cbn [argc CommandArgs_new]. lia.
  - intros j _. reflexivity.
Qed.

(** The tokenizer reads the C string of its input up to
    [CMD_BUFFER_SIZE - 1] characters and nothing else. *)
Lemma strncpy_temp_prefix (input : list ascii) :
  strncpy_temp (take (CMD_BUFFER_SIZE - 1) (c_str input)) = strncpy_temp input.
Proof.
  unfold strncpy_temp. f_equal.
  rewrite (c_str_id (take _ (c_str input)))
    by (apply Forall_take, c_str_no_nul).
  rewrite !take_app, take_take, Nat.min_id, length_take. do 2 f_equal. lia.
Qed.

Lemma parse_command_line_c_str (a b : list ascii) :
  c_str a = c_str b -> parse_command_line a = parse_command_line b.
Proof. intros H. unfold parse_command_line, strncpy_temp. by rewrite H. Qed.

(** X1. For every input the invocation is well formed: [argv] has
    [MAX_ARGS] rows of [MAX_ARG_LENGTH] cells; every argument is
    NUL-terminated within its row, so that it has at most
    [MAX_ARG_LENGTH - 1] characters, and its characters are characters of
    the input line; the rows from [argc] on are empty strings, all NUL. *)
Theorem parse_command_line_well_formed (input : list ascii) :
  length (argv (parse_command_line input)) = Z.to_nat MAX_ARGS
  /\ Forall (fun row => length row = MAX_ARG_LENGTH)
            (argv (parse_command_line input))
  /\ (forall i : nat,
         (i < Z.to_nat MAX_ARGS)%nat ->
         (length (arg (parse_command_line input) i) <= MAX_ARG_LENGTH - 1)%nat
         /\ Forall (fun c => c ∈ c_str input)
                   (arg (parse_command_line input) i))
  /\ (forall i : nat,
         (Z.to_nat (argc (parse_command_line input)) <= i < Z.to_nat MAX_ARGS)%nat ->
         argv_row (parse_command_line input) i = replicate MAX_ARG_LENGTH NUL).
Proof.
  assert (args_inv (fun c => c = NUL \/ c ∈ c_str input)
            (parse_command_line input)) as Hinv.
  { unfold parse_command_line. apply parse_loop_inv.
    - by left.
    - apply strncpy_temp_c_str.
    - apply args_inv_new. by left. }
  split; [apply Hinv|]. split.
  { eapply Forall_impl; [apply Hinv|]. by intros row [? _]. }
  split.
  - intros i Hi. split; [by apply parse_command_line_arg_length|].
    destruct (args_inv_row _ _ i Hinv Hi) as (_ & _ & Hrow).
    unfold arg. eapply Forall_impl; [apply (c_str_Forall _ _ Hrow)|].
    by intros c [[->|Hc] Hne].
  - intros i [Hi Hlt].
    rewrite (parse_command_line_unused_rows input i Hi).
    unfold argv_row, CommandArgs_new. cbn [argv].
    rewrite nth_lookup, lookup_replicate_2 by exact Hlt. reflexivity.
Qed.

(** X2. The tokenizer looks at the first [CMD_BUFFER_SIZE - 1] characters
    of the C string it is given and at nothing after them: a longer command
    line is cut there without an error. *)
Theorem parse_command_line_prefix (input : list ascii) :
  parse_command_line input
  = parse_command_line (take (CMD_BUFFER_SIZE - 1) (c_str input)).
Proof.
  unfold parse_command_line. by rewrite strncpy_temp_prefix.
Qed.

(** *** Lines made of tokens that fit *)

Lemma skip_spaces_replicate (g : nat) (l : list ascii) :
  skip_spaces (replicate g SPC ++ l) = skip_spaces l.
Proof. induction g as [|g IH]; [done|]. cbn. exact IH. Qed.

Lemma skip_spaces_token (tok rest : list ascii) :
  is_token tok -> skip_spaces (tok ++ rest) = tok ++ rest.
Proof.
  intros (Hne & _ & Hch). destruct tok as [|c tok]; [done|].
  apply Forall_cons in Hch as [[Hsp _] _]. cbn [app skip_spaces].
  apply Ascii.eqb_neq in Hsp. by rewrite Hsp.
Qed.

Lemma deref_token (tok rest : list ascii) :
  is_token tok -> deref (tok ++ rest) <> NUL.
Proof.
  intros (Hne & _ & Hch). destruct tok as [|c tok]; [done|].
  by apply Forall_cons in Hch as [[_ Hn] _].
Qed.

(** The copy loop on a token that fits and is followed by a space or by
    the end of the line: the token is written into the row from
    [char_count] on and [token] is left just after it. *)
Lemma copy_token_exact (tok : list ascii) :
  forall (rest row : list ascii) (n : nat),
    Forall (fun c => c <> SPC /\ c <> NUL) tok ->
    (n + length tok <= MAX_ARG_LENGTH - 1)%nat ->
    (n + length tok <= length row)%nat ->
    deref rest = SPC \/ deref rest = NUL ->
    copy_token (tok ++ rest) row n
    = (rest, take n row ++ tok ++ drop (n + length tok) row, (n + length tok)%nat).
Proof.
  induction tok as [|c tok IH]; intros rest row n Hch Hfit Hrow Hrest.
  - cbn [app length]. rewrite Nat.add_0_r, take_drop.
    destruct rest as [|r rest]; [done|]. cbn [copy_token].
    assert (negb (Ascii.eqb r NUL) && negb (Ascii.eqb r SPC) = false) as ->; [|done].
    cbn [deref hd] in Hrest. by destruct Hrest as [-> | ->].
  - apply Forall_cons in Hch as [[Hsp Hn] Hch]. cbn [length] in *.
    cbn [app copy_token].
    apply Ascii.eqb_neq in Hsp. apply Ascii.eqb_neq in Hn. rewrite Hsp, Hn.
    assert ((n <? MAX_ARG_LENGTH - 1)%nat = true) as -> by (apply Nat.ltb_lt; lia).
    cbn [negb andb].
    rewrite (IH rest (<[n := c]> row) (S n) Hch) by (rewrite ?length_insert; done || lia).
    f_equal; [|lia]. f_equal.
    rewrite (take_S_r _ _ c) by (apply list_lookup_insert_eq; lia).
    rewrite take_insert_ge, drop_insert_lt by lia.
    rewrite <- (assoc_L (++)). cbn [app].
    by replace (S n + length tok)%nat with (n + S (length tok))%nat by lia.
Qed.

Lemma spaced_tokens_cons (g : nat) (tok : list ascii)
    (more : list (nat * list ascii)) :
  spaced_tokens ((g, tok) :: more)
  = replicate (S g) SPC ++ tok ++ spaced_tokens more.
Proof. unfold spaced_tokens. cbn [map concat fst snd]. by rewrite <- (assoc_L (++)). Qed.

Lemma spaced_tokens_deref (more : list (nat * list ascii)) (tail : list ascii) :
  Forall (fun c => c = SPC \/ c = NUL) tail ->
  deref (spaced_tokens more ++ tail) = SPC
  \/ deref (spaced_tokens more ++ tail) = NUL.
Proof.
  intros Htail. destruct more as [|[g tok] more]; [|by left].
  cbn. destruct Htail as [|c tail Hc _]; [by right | done].
Qed.

(** The rows below [argc] are never written again. *)
Lemma parse_loop_keeps_rows (fuel : nat) (token : list ascii)
    (args : CommandArgs) (i : nat) :
  0 <= argc args -> (i < Z.to_nat (argc args))%nat ->
  argv_row (parse_loop fuel token args) i = argv_row args i.
Proof.
  revert token args.
  induction fuel as [|fuel IH]; intros token args Hargc Hi;
    cbn [parse_loop]; [done|].
  destruct (negb (Ascii.eqb (deref token) NUL) && (argc args <? MAX_ARGS - 1));
    [|done].
  destruct (Ascii.eqb (deref (skip_spaces token)) NUL); [done|].
  destruct (copy_token (skip_spaces token)
              (argv_row args (Z.to_nat (argc args))) 0) as [[token' row'] n'].
  rewrite IH by (cbn [argc]; lia).
  unfold argv_row. cbn [argv].
  rewrite !nth_lookup, list_lookup_insert_ne by lia. done.
Qed.

(** One iteration of the tokenizer loop on a token that fits. *)
Lemma parse_loop_token (fuel g : nat) (tok rest : list ascii)
    (args : CommandArgs) :
  is_token tok ->
  deref rest = SPC \/ deref rest = NUL ->
  args_inv (fun _ => True) args ->
  argc args < MAX_ARGS - 1 ->
  exists args1 : CommandArgs,
    parse_loop (S fuel) (replicate g SPC ++ tok ++ rest) args
    = parse_loop fuel (skip_spaces rest) args1
    /\ args_inv (fun _ => True) args1
    /\ argc args1 = argc args + 1
    /\ arg args1 (Z.to_nat (argc args)) = tok.
Proof.
  intros Htok Hrest Hinv Hlt.
  pose proof Hinv as (Hargc & Hlen & Hrows).
  pose proof Htok as (_ & Htl & Hch).
  destruct (args_inv_row _ args (Z.to_nat (argc args)) Hinv ltac:(lia))
    as (Hrl & H11 & _).
  set (row0 := argv_row args (Z.to_nat (argc args))) in *.
  set (row := <[length tok := NUL]> (tok ++ drop (length tok) row0)).
  exists {| argc := argc args + 1;
            argv := <[Z.to_nat (argc args) := row]> (argv args) |}.
  assert (length tok < length row0)%nat as Hfit
    by (rewrite Hrl; unfold MAX_ARG_LENGTH in *; lia).
  split; [|split; [|split]].
  - cbn [parse_loop].
    assert (deref (replicate g SPC ++ tok ++ rest) <> NUL) as Hd
      by (destruct g; cbn [replicate app];
          [by apply deref_token | apply Ascii.eqb_neq; reflexivity]).
    apply Ascii.eqb_neq in Hd. rewrite Hd. clear Hd.
    apply Z.ltb_lt in Hlt. rewrite Hlt. cbn [negb andb].
    rewrite skip_spaces_replicate, (skip_spaces_token _ _ Htok).
    pose proof (deref_token tok rest Htok) as Hd.
    apply Ascii.eqb_neq in Hd. rewrite Hd. clear Hd.
    fold row0.
    rewrite (copy_token_exact tok rest row0 0 Hch); [|done|lia|done].
    cbn [Nat.add take app]. done.
  - unfold args_inv. cbn [argc argv].
    split; [lia|]. split; [by rewrite length_insert|].
    apply Forall_insert; [done|].
    assert (length row = MAX_ARG_LENGTH) as Hlrow
      by (subst row; rewrite length_insert, length_app, length_drop; lia).
    split; [done|]. split; [|by apply Forall_true].
    subst row.
    destruct (decide (length tok = (MAX_ARG_LENGTH - 1)%nat)) as [Heq|Hne].
    + rewrite <- Heq. apply list_lookup_insert_eq.
      rewrite length_app, length_drop. lia.
    + rewrite list_lookup_insert_ne by done.
      rewrite lookup_app_r by lia. rewrite lookup_drop, <- H11.
      f_equal. lia.
  - done.
  - unfold arg, argv_row. cbn [argv].
    rewrite nth_lookup, list_lookup_insert_eq by lia. cbn [default].
    subst row.
    rewrite insert_app_r_alt, Nat.sub_diag by done.
    destruct (drop (length tok) row0) as [|x tl] eqn:Hdrop.
    { apply (f_equal length) in Hdrop. rewrite length_drop in Hdrop.
      cbn [length] in Hdrop. lia. }
    cbn [insert list_insert]. apply c_str_app_nul.
    eapply Forall_impl; [exact Hch|]. by intros c [].
Qed.

(** The tokenizer loop on a line of tokens that fit: each iteration stores
    one token, until the tokens or the rows below [MAX_ARGS - 1] run
    out. *)
Lemma parse_loop_tokens (more : list (nat * list ascii)) :
  forall (fuel g : nat) (tok tail : list ascii) (args : CommandArgs),
    is_token tok ->
    Forall (fun gt => is_token gt.2) more ->
    Forall (fun c => c = SPC \/ c = NUL) tail ->
    args_inv (fun _ => True) args ->
    (Z.to_nat (MAX_ARGS - 1 - argc args) <= fuel)%nat ->
    argc (parse_loop fuel
            (replicate g SPC ++ tok ++ spaced_tokens more ++ tail) args)
    = Z.min (argc args + 1 + Z.of_nat (length more)) (MAX_ARGS - 1)
    /\ forall j : nat,
         (Z.to_nat (argc args) + j
          < Z.to_nat (argc (parse_loop fuel
               (replicate g SPC ++ tok ++ spaced_tokens more ++ tail) args)))%nat ->
         arg (parse_loop fuel
                (replicate g SPC ++ tok ++ spaced_tokens more ++ tail) args)
             (Z.to_nat (argc args) + j)
         = nth j (tok :: map snd more) [].
Proof.
  induction more as [|[g2 tok2] more IH];
    intros fuel g tok tail args Htok Hmore Htail Hinv Hfuel.
  all: pose proof Hinv as (Hargc & _ & _).
  all: destruct (Z.ltb_spec (argc args) (MAX_ARGS - 1)) as [Hlt|Hge].
  2,4: (assert (forall token, parse_loop fuel token args = args) as Hstop
          by (intros token; destruct fuel; cbn [parse_loop]; [done|];
              apply Z.ltb_ge in Hge; by rewrite Hge, andb_false_r);
        rewrite Hstop; split; [lia | intros j Hj; lia]).
  all: destruct fuel as [|fuel]; [unfold MAX_ARGS in *; lia|].
  - (* the last token *)
    cbn [spaced_tokens map concat app].
    destruct (parse_loop_token fuel g tok tail args Htok) as
      (args1 & -> & Hinv1 & Hc1 & Harg1); [|done|done|].
    { destruct Htail as [|c tail Hc _]; [by right | done]. }
    rewrite parse_loop_blank
      by exact (Forall_suffix_of _ _ _ (skip_spaces_suffix tail) Htail).
    split; [cbn [length]; lia|].
    intros j Hj. assert (j = 0%nat) as -> by lia.
    by rewrite Nat.add_0_r.
  - (* a token with others after it *)
    apply Forall_cons in Hmore as [Htok2 Hmore]. cbn [snd] in Htok2.
    destruct (parse_loop_token fuel g tok
                (spaced_tokens ((g2, tok2) :: more) ++ tail) args Htok) as
      (args1 & -> & Hinv1 & Hc1 & Harg1); [by left|done|done|].
    rewrite spaced_tokens_cons, <- !(assoc_L (++)).
    rewrite skip_spaces_replicate, (skip_spaces_token _ _ Htok2).
    destruct (IH fuel 0%nat tok2 tail args1 Htok2 Hmore Htail Hinv1
                ltac:(lia)) as [Hc Hargs].
    cbn [replicate app] in Hc, Hargs.
    split; [rewrite Hc; cbn [length]; lia|].
    intros j Hj. destruct j as [|j].
    + rewrite Nat.add_0_r. cbn [nth]. rewrite <- Harg1. unfold arg.
      by rewrite parse_loop_keeps_rows by lia.
    + replace (Z.to_nat (argc args) + S j)%nat
        with (Z.to_nat (argc args1) + j)%nat by lia.
      cbn [map nth]. apply Hargs. lia.
Qed.

Lemma map_nth_seq {A} (l : list A) (d : A) (k : nat) :
  (k <= length l)%nat -> map (fun j => nth j l d) (seq 0 k) = take k l.
Proof.
  revert k. induction l as [|x l IH]; intros [|k] Hk; cbn in *; try done; try lia.
  f_equal. rewrite <- seq_shift, map_map. apply IH. lia.
Qed.

Lemma command_line_no_nul (lead : nat) (tok : list ascii)
    (more : list (nat * list ascii)) (trail : nat) :
  is_token tok -> Forall (fun gt => is_token gt.2) more ->
  Forall (fun c => c <> NUL) (command_line_of lead tok more trail).
Proof.
  intros (_ & _ & Hch) Hmore. unfold command_line_of.
  assert (forall n, Forall (fun c => c <> NUL) (replicate n SPC)) as Hsp
    by (intros n; by apply Forall_replicate).
  apply Forall_app; split; [done|]. apply Forall_app; split.
  { eapply Forall_impl; [exact Hch|]. by intros c []. }
  apply Forall_app; split; [|done].
  unfold spaced_tokens. apply Forall_concat, Forall_fmap.
  eapply Forall_impl; [exact Hmore|]. intros [g t] (_ & _ & Ht).
  unfold compose. cbn [fst snd] in *.
  apply Forall_app; split; [apply (Hsp (S g))|].
  eapply Forall_impl; [exact Ht|]. by intros c [].
Qed.

(** X3. A command line made of tokens that fit a row (not empty, at most
    [MAX_ARG_LENGTH - 1] characters, no space and no NUL), with any number
    of spaces before the first, one space or more between two of them and
    any number of spaces after the last, of at most [CMD_BUFFER_SIZE - 1]
    characters in all, is tokenized into its first [MAX_ARGS - 1] tokens:
    [argc] is the smaller of the number of tokens and [MAX_ARGS - 1], and
    the arguments are these tokens in order. *)
Theorem parse_command_line_tokens (lead : nat) (tok : list ascii)
    (more : list (nat * list ascii)) (trail : nat) :
  is_token tok ->
  Forall (fun gt => is_token gt.2) more ->
  (length (command_line_of lead tok more trail) <= CMD_BUFFER_SIZE - 1)%nat ->
  argc (parse_command_line (command_line_of lead tok more trail))
  = Z.min (Z.of_nat (S (length more))) (MAX_ARGS - 1)
  /\ args_of (parse_command_line (command_line_of lead tok more trail))
     = take (Z.to_nat (MAX_ARGS - 1)) (tok :: map snd more).
Proof.
  intros Htok Hmore Hlen.
  pose proof (command_line_no_nul lead tok more trail Htok Hmore) as Hnn.
  assert (strncpy_temp (command_line_of lead tok more trail)
          = replicate lead SPC ++ tok ++ spaced_tokens more
            ++ (replicate trail SPC
                ++ replicate (CMD_BUFFER_SIZE - 1
                              - length (command_line_of lead tok more trail)) NUL
                ++ [NUL])) as Htemp.
  { unfold strncpy_temp. rewrite (c_str_id _ Hnn), take_app.
    rewrite take_ge by done. rewrite take_replicate.
    rewrite Nat.min_l by lia.
    unfold command_line_of. by rewrite <- !(assoc_L (++)). }
  unfold parse_command_line. rewrite Htemp. clear Htemp.
  set (tail := replicate trail SPC ++ _ ++ [NUL]).
  destruct (parse_loop_tokens more CMD_BUFFER_SIZE lead tok tail
              CommandArgs_new Htok Hmore) as [Hc Hargs].
  { apply Forall_app; split; [apply Forall_replicate; by left|].
    apply Forall_app; split; [apply Forall_replicate; by right|].
    apply Forall_cons; split; [by right | by apply Forall_nil]. }
  { by apply args_inv_new. }
  { cbn [argc CommandArgs_new]. unfold MAX_ARGS, CMD_BUFFER_SIZE. lia. }
  set (args' := parse_loop CMD_BUFFER_SIZE _ CommandArgs_new) in *.
  cbn [argc CommandArgs_new] in Hc, Hargs.
  change (Z.to_nat 0) with 0%nat in Hargs.
  split; [rewrite Hc; lia|].
  unfold args_of.
  transitivity (map (fun j => nth j (tok :: map snd more) [])
                    (seq 0 (Z.to_nat (argc args')))).
  - apply map_ext_in. intros j Hj. apply in_seq in Hj.
    apply (Hargs j). lia.
  - rewrite map_nth_seq by (cbn [length]; rewrite length_map; lia).
    rewrite Hc. unfold MAX_ARGS.
    destruct (decide (S (length more) <= 4)%nat) as [Hle|Hgt].
    + rewrite !take_ge by (cbn [length]; rewrite length_map; lia). done.
    + f_equal. lia.
Qed.

Lemma parse_command_line_tokens_witness :
  args_of (parse_command_line (lit "  led   on 3 "))
  = [lit "led"; lit "on"; lit "3"].
Proof.
  apply (proj2 (parse_command_line_tokens 2 (lit "led")
                  [(2%nat, lit "on"); (0%nat, lit "3")] 1
                  ltac:(vm_compute; repeat split; try discriminate;
                        repeat constructor; discriminate)
                  ltac:(vm_compute; repeat constructor; discriminate)
                  ltac:(vm_compute; repeat constructor))).
Defined.

(** * Further properties of the accumulator *)

Section AccumulatorMore.

Context {ContextType : Type}.
Implicit Types (e : CliEngine ContextType) (c : ascii) (line : list ascii).

Lemma c_str_take (n : nat) (p : list ascii) : c_str (take n p) = take n (c_str p).
Proof.
  revert n. induction p as [|c p IH]; intros [|n]; cbn [take c_str]; try done.
  destruct (Ascii.eqb c NUL); [done|]. cbn [take]. by rewrite IH.
Qed.

Lemma c_str_app_cut (p rest : list ascii) : c_str (p ++ NUL :: rest) = c_str p.
Proof.
  induction p as [|c p IH]; cbn [c_str app]; [done|].
  destruct (Ascii.eqb c NUL); [done|]. by rewrite IH.
Qed.

Lemma parse_command_line_take (input : list ascii) :
  parse_command_line (take (CMD_BUFFER_SIZE - 1) input)
  = parse_command_line input.
Proof.
  unfold parse_command_line.
  rewrite <- (strncpy_temp_prefix (take _ input)).
  rewrite <- (strncpy_temp_prefix input).
  by rewrite c_str_take, take_take, Nat.min_id.
Qed.

(** The body of the loop on a regular character. *)
Lemma input_char_regular_step c e :
  regular c ->
  input_char c e =
  if (input_pos_ e <? CMD_BUFFER_SIZE - 1)%nat
  then (set_input_pos (input_pos_ e + 1)
          (set_input_buffer (<[input_pos_ e := c]> (input_buffer_ e)) e),
        [Io_put_byte c], None)
  else (e, [], None).
Proof.
  intros (Hbs & Hdel & Hcr & Hlf)%regular_eqb. unfold input_char.
  by rewrite Hbs, Hdel, Hcr, Hlf.
Qed.

(** The body of the loop on a backspace. *)
Lemma input_char_backspace c e :
  c = BS \/ c = DEL ->
  input_char c e =
  if (0 <? input_pos_ e)%nat
  then (set_input_buffer (<[(input_pos_ e - 1)%nat := NUL]> (input_buffer_ e))
          (set_input_pos (input_pos_ e - 1) e),
        [Io_send_backspace], None)
  else (e, [], None).
Proof. intros [-> | ->]; reflexivity. Qed.

(** The body of the loop on a terminator that ends a non-empty line. *)
Lemma input_char_terminator c e :
  c = CR \/ (c = LF /\ last_line_char_ e <> CR) ->
  (0 < input_pos_ e)%nat ->
  input_char c e =
  (mkCliEngine (context_ e) (replicate CMD_BUFFER_SIZE NUL) 0 c (prompt_sent_ e),
   [Io_println],
   Some (parse_command_line (<[input_pos_ e := NUL]> (input_buffer_ e)))).
Proof.
  intros Hc Hpos. apply Nat.ltb_lt in Hpos. unfold input_char.
  destruct Hc as [-> | [-> Hlast]].
  - change (Ascii.eqb CR BS || Ascii.eqb CR DEL) with false.
    change (Ascii.eqb CR CR || Ascii.eqb CR LF) with true.
    change (Ascii.eqb CR LF) with false. cbn [andb].
    engine_simpl. by rewrite Hpos.
  - change (Ascii.eqb LF BS || Ascii.eqb LF DEL) with false.
    change (Ascii.eqb LF CR || Ascii.eqb LF LF) with true.
    change (Ascii.eqb LF LF) with true.
    apply Ascii.eqb_neq in Hlast. rewrite Hlast. cbn [andb].
    engine_simpl. by rewrite Hpos.
Qed.

(** *** The cursor stays within the line buffer *)

Lemma input_char_wf c e : buffer_wf e -> buffer_wf (input_char c e).1.1.
Proof.
  unfold buffer_wf, input_char. intros [Hl Hp].
  repeat match goal with
         | |- context [if ?b then _ else _] => destruct b eqn:?
         end; engine_simpl;
    rewrite ?length_insert, ?length_replicate; split; try done; try lia.
  apply Nat.ltb_lt in Heqb1. lia.
Qed.

Lemma input_char_clean c e :
  buffer_wf e -> buffer_clean e -> buffer_clean (input_char c e).1.1.
Proof.
  unfold buffer_wf, buffer_clean, input_char. intros [Hl Hp] Hclean.
  repeat match goal with
         | |- context [if ?b then _ else _] => destruct b eqn:?
         end; engine_simpl; intros i Hi; try (apply Hclean; lia).
  - apply Nat.ltb_lt in Heqb0.
    destruct (decide (i = (input_pos_ e - 1)%nat)) as [->|Hne].
    + apply list_lookup_insert_eq. lia.
    + rewrite list_lookup_insert_ne by done. apply Hclean. lia.
  - apply lookup_replicate_2. lia.
  - rewrite list_lookup_insert_ne by lia. apply Hclean. lia.
Qed.

Lemma input_loop_wf (read_buffer : list ascii) e :
  buffer_wf e -> buffer_wf (input_loop read_buffer e).1.1.
Proof.
  revert e. induction read_buffer as [|c rb IH]; intros e Hwf;
    cbn [input_loop]; [done|].
  pose proof (input_char_wf c e Hwf) as H1.
  destruct (input_char c e) as [[e1 out1] [result|]]; [done|].
  specialize (IH e1 H1). by destruct (input_loop rb e1) as [[e2 out2] r].
Qed.

Lemma input_loop_clean (read_buffer : list ascii) e :
  buffer_wf e -> buffer_clean e ->
  buffer_clean (input_loop read_buffer e).1.1.
Proof.
  revert e. induction read_buffer as [|c rb IH]; intros e Hwf Hcl;
    cbn [input_loop]; [done|].
  pose proof (input_char_wf c e Hwf) as H1.
  pose proof (input_char_clean c e Hwf Hcl) as H2.
  destruct (input_char c e) as [[e1 out1] [result|]]; [done|].
  specialize (IH e1 H1 H2). by destruct (input_loop rb e1) as [[e2 out2] r].
Qed.

(** *** Lines of regular characters *)

(** The loop over regular characters appends them at the cursor, as many
    as fit below [CMD_BUFFER_SIZE - 1], and echoes the ones it keeps. *)
Lemma input_loop_regular_line line :
  forall e,
    Forall regular line -> buffer_wf e ->
    let kept := take (CMD_BUFFER_SIZE - 1 - input_pos_ e) line in
    input_loop line e
    = (set_input_pos (input_pos_ e + length kept)
         (set_input_buffer
            (take (input_pos_ e) (input_buffer_ e) ++ kept
             ++ drop (input_pos_ e + length kept) (input_buffer_ e)) e),
       map Io_put_byte kept, None).
Proof.
  induction line as [|c line IH]; intros e Hline Hwf kept; subst kept.
  - rewrite take_nil. cbn [input_loop length map app].
    rewrite Nat.add_0_r, take_drop. by destruct e.
  - apply Forall_cons in Hline as [Hc Hline].
    cbn [input_loop]. rewrite (input_char_regular_step c e Hc).
    destruct Hwf as [Hl Hp].
    destruct (Nat.ltb_spec (input_pos_ e) (CMD_BUFFER_SIZE - 1)) as [Hlt|Hge].
    + rewrite IH; [|done|].
      2:{ split; engine_simpl; [by rewrite length_insert | lia]. }
      destruct e as [ctx buf pos last sent]. engine_simpl.
      replace (CMD_BUFFER_SIZE - 1 - pos)%nat
        with (S (CMD_BUFFER_SIZE - 1 - (pos + 1))) by lia.
      cbn [take map length app]. f_equal. f_equal. unfold set_input_pos,
        set_input_buffer. cbn. f_equal; [|lia].
      rewrite Nat.add_1_r.
      rewrite (take_S_r _ _ c) by (apply list_lookup_insert_eq; lia).
      rewrite take_insert_ge, drop_insert_lt by lia.
      rewrite <- (assoc_L (++)). cbn [app].
      by rewrite Nat.add_succ_r.
    + assert (input_pos_ e = (CMD_BUFFER_SIZE - 1)%nat) as Hfull by lia.
      rewrite IH by done. rewrite Hfull, Nat.sub_diag, !take_0. done.
Qed.

End AccumulatorMore.

Section DriverMore.

Context {ContextType : Type}.
Variable commands : list (CommandDefinition ContextType).
Variable prompt : list ascii.
Implicit Types (e : CliEngine ContextType) (c : ascii) (line : list ascii).

Lemma dispatch_command_members (args : CommandArgs) e :
  input_buffer_ (dispatch_command commands args e).1.2 = input_buffer_ e
  /\ input_pos_ (dispatch_command commands args e).1.2 = input_pos_ e
  /\ last_line_char_ (dispatch_command commands args e).1.2 = last_line_char_ e
  /\ prompt_sent_ (dispatch_command commands args e).1.2 = prompt_sent_ e.
Proof.
  rewrite dispatch_command_context.
  by destruct (dispatch_command commands args _) as [[handled e0] out].
Qed.

Lemma process_input_wf (read_buffer : list ascii) e :
  buffer_wf e -> buffer_wf (process_input commands prompt read_buffer e).1.1.
Proof.
  intros Hwf. unfold process_input.
  assert (buffer_wf (prompt_if_needed prompt e).1) as Hwf0.
  { unfold prompt_if_needed. by destruct (negb (prompt_sent_ e)). }
  destruct (prompt_if_needed prompt e) as [e0 out0]. cbn [fst] in Hwf0.
  rewrite get_command_input_loop.
  pose proof (input_loop_wf read_buffer e0 Hwf0) as Hwf1.
  destruct (input_loop read_buffer e0) as [[e1 out1] r]. cbn [fst] in Hwf1.
  destruct (0 <? argc (returned_args r)); [|done].
  destruct (dispatch_command_members (returned_args r) e1) as (Hb & Hp & _).
  destruct (dispatch_command commands (returned_args r) e1) as [[handled e2] out2].
  cbn [fst snd] in *. unfold buffer_wf in *. engine_simpl. by rewrite Hb, Hp.
Qed.

Lemma process_input_clean (read_buffer : list ascii) e :
  buffer_wf e -> buffer_clean e ->
  buffer_clean (process_input commands prompt read_buffer e).1.1.
Proof.
  intros Hwf Hcl. unfold process_input.
  assert (buffer_wf (prompt_if_needed prompt e).1
          /\ buffer_clean (prompt_if_needed prompt e).1) as [Hwf0 Hcl0].
  { unfold prompt_if_needed. by destruct (negb (prompt_sent_ e)). }
  destruct (prompt_if_needed prompt e) as [e0 out0]. cbn [fst] in Hwf0, Hcl0.
  rewrite get_command_input_loop.
  pose proof (input_loop_clean read_buffer e0 Hwf0 Hcl0) as Hcl1.
  destruct (input_loop read_buffer e0) as [[e1 out1] r]. cbn [fst] in Hcl1.
  destruct (0 <? argc (returned_args r)); [|done].
  destruct (dispatch_command_members (returned_args r) e1) as (Hb & Hp & _).
  destruct (dispatch_command commands (returned_args r) e1) as [[handled e2] out2].
  cbn [fst snd] in *. unfold buffer_clean in *. engine_simpl. by rewrite Hb, Hp.
Qed.

Lemma poll_wf_clean (chunks : list (list ascii)) e :
  buffer_wf e ->
  buffer_wf (poll commands prompt chunks e).1.1
  /\ (buffer_clean e -> buffer_clean (poll commands prompt chunks e).1.1).
Proof.
  revert e. induction chunks as [|read_buffer chunks IH]; intros e Hwf;
    cbn [poll]; [done|].
  pose proof (process_input_wf read_buffer e Hwf) as Hwf1.
  pose proof (process_input_clean read_buffer e Hwf) as Hcl1.
  destruct (process_input commands prompt read_buffer e) as [[e1 out1] d].
  cbn [fst] in *. destruct (IH e1 Hwf1) as [Hwf2 Hcl2].
  destruct (poll commands prompt chunks e1) as [[e2 out2] ds].
  cbn [fst] in *. split; [done|]. intros Hcl. by apply Hcl2, Hcl1.
Qed.

(** Calls without bytes: the prompt is sent by the first one, if it was
    not out already, and nothing else happens. *)
Lemma process_input_idle e :
  process_input commands prompt [] e
  = (set_prompt_sent true e,
     if prompt_sent_ e then [] else [Io_send_prompt prompt], None).
Proof.
  unfold process_input, prompt_if_needed.
  destruct e as [ctx buf pos last []]; reflexivity.
Qed.

Lemma poll_idle (n : nat) e :
  poll commands prompt (replicate (S n) []) e
  = (set_prompt_sent true e,
     if prompt_sent_ e then [] else [Io_send_prompt prompt], []).
Proof.
  revert e. induction n as [|n IH]; intros e.
  - cbn [replicate poll]. rewrite process_input_idle. by rewrite app_nil_r.
  - change (replicate (S (S n)) []) with ([] :: replicate (S n) (@nil ascii)).
    cbn [poll]. rewrite process_input_idle, IH.
    destruct e as [ctx buf pos last sent]. engine_simpl.
    by rewrite app_nil_r.
Qed.

(** A typed line and the same line given to [execute_command]. *)
Lemma get_command_input_typed_line line (term : ascii) e :
  buffer_wf e -> input_pos_ e = 0%nat ->
  Forall regular line -> line <> [] ->
  term = CR \/ (term = LF /\ last_line_char_ e <> CR) ->
  get_command_input (line ++ [term]) e
  = (mkCliEngine (context_ e) (replicate CMD_BUFFER_SIZE NUL) 0 term
       (prompt_sent_ e),
     map Io_put_byte (take (CMD_BUFFER_SIZE - 1) line) ++ [Io_println],
     Some (parse_command_line line)).
Proof.
  intros Hwf Hpos Hline Hne Hterm.
  rewrite get_command_input_loop, input_loop_app.
  rewrite (input_loop_regular_line line e Hline Hwf).
  rewrite Hpos, Nat.sub_0_r, Nat.add_0_l, take_0, app_nil_l.
  set (kept := take (CMD_BUFFER_SIZE - 1) line).
  cbn [input_loop].
  assert (0 < length kept <= CMD_BUFFER_SIZE - 1)%nat as Hk.
  { subst kept. rewrite length_take. destruct line; [done|].
    cbn [length]. unfold CMD_BUFFER_SIZE. lia. }
  destruct Hwf as [Hl _].
  rewrite input_char_terminator; [|exact Hterm|engine_simpl; lia].
  engine_simpl. do 2 f_equal.
  rewrite <- (parse_command_line_take line). fold kept.
  apply parse_command_line_c_str.
  rewrite insert_app_r_alt, Nat.sub_diag by done.
  destruct (drop (length kept) (input_buffer_ e)) as [|x tl] eqn:Hdrop.
  { apply (f_equal length) in Hdrop. rewrite length_drop, Hl in Hdrop.
    cbn [length] in Hdrop. unfold CMD_BUFFER_SIZE in *. lia. }
  cbn [insert list_insert]. apply c_str_app_cut.
Qed.

End DriverMore.

(** A byte that is no line terminator completes no line. *)
Lemma input_char_no_terminator {ContextType : Type} (c : ascii)
    (e : CliEngine ContextType) :
  c <> CR -> c <> LF -> (input_char c e).2 = None.
Proof.
  intros Hcr Hlf. unfold input_char.
  apply Ascii.eqb_neq in Hcr. apply Ascii.eqb_neq in Hlf. rewrite Hcr, Hlf.
  cbn [orb]. destruct (Ascii.eqb c BS || Ascii.eqb c DEL).
  - by destruct (0 <? input_pos_ e)%nat.
  - by destruct (input_pos_ e <? CMD_BUFFER_SIZE - 1)%nat.
Qed.

Lemma input_loop_no_terminator {ContextType : Type} (bytes : list ascii)
    (e : CliEngine ContextType) :
  Forall (fun c => c <> CR /\ c <> LF) bytes -> (input_loop bytes e).2 = None.
Proof.
  intros Hb. revert e. induction Hb as [|c bytes [Hcr Hlf] _ IH]; intros e;
    cbn [input_loop]; [done|].
  pose proof (input_char_no_terminator c e Hcr Hlf) as Hc.
  destruct (input_char c e) as [[e1 out1] [result|]]; [done|].
  specialize (IH e1). by destruct (input_loop bytes e1) as [[e2 out2] r].
Qed.

(** X4. When the line buffer is empty, a non-empty line of regular
    characters followed by CR (or by LF, when the last terminator was not
    CR) makes [get_command_input] return [parse_command_line] of exactly
    the typed line (which keeps its first [CMD_BUFFER_SIZE - 1]
    characters); the characters that fit are echoed, one [put_byte] each
    and in order, the ones beyond the capacity are neither stored nor
    echoed, and a newline is echoed; afterwards the buffer is zeroed, the
    cursor is 0 and the terminator is recorded. *)
Theorem typed_line_is_tokenized (ContextType : Type)
    (line : list ascii) (term : ascii) (e : CliEngine ContextType) :
  buffer_wf e -> input_pos_ e = 0%nat ->
  Forall regular line -> line <> [] ->
  term = CR \/ (term = LF /\ last_line_char_ e <> CR) ->
  get_command_input (line ++ [term]) e
  = (mkCliEngine (context_ e) (replicate CMD_BUFFER_SIZE NUL) 0 term
       (prompt_sent_ e),
     map Io_put_byte (take (CMD_BUFFER_SIZE - 1) line) ++ [Io_println],
     Some (parse_command_line line)).
Proof. apply get_command_input_typed_line. Qed.

Lemma typed_line_is_tokenized_witness :
  get_command_input (lit "led on" ++ [CR])
    (CliEngine_new tt (replicate CMD_BUFFER_SIZE NUL))
  = (mkCliEngine tt (replicate CMD_BUFFER_SIZE NUL) 0 CR false,
     map Io_put_byte (take (CMD_BUFFER_SIZE - 1) (lit "led on")) ++ [Io_println],
     Some (parse_command_line (lit "led on"))).
Proof.
  apply (typed_line_is_tokenized unit (lit "led on") CR
           (CliEngine_new tt (replicate CMD_BUFFER_SIZE NUL))).
  - split; [reflexivity | cbn; unfold CMD_BUFFER_SIZE; lia].
  - reflexivity.
  - repeat constructor.
  - discriminate.
  - by left.
Defined.

(** X5. The cursor never leaves the line buffer: if [input_buffer_] has
    [CMD_BUFFER_SIZE] cells and [input_pos_] is at most
    [CMD_BUFFER_SIZE - 1], this holds again after any sequence of calls of
    [process_input], whatever bytes arrive, so every store into the buffer
    is within the array; and if in addition the cells from the cursor on
    are NUL, they are so afterwards. A constructed engine satisfies the
    first property, an engine after [reset_session] both. *)
Theorem poll_keeps_cursor_in_buffer (ContextType : Type)
    (commands : list (CommandDefinition ContextType)) (prompt : list ascii) :
  (forall (chunks : list (list ascii)) (e : CliEngine ContextType),
      buffer_wf e ->
      buffer_wf (poll commands prompt chunks e).1.1
      /\ (buffer_clean e ->
          buffer_clean (poll commands prompt chunks e).1.1))
  /\ (forall (ctx : ContextType) (uninit : list ascii),
         length uninit = CMD_BUFFER_SIZE -> buffer_wf (CliEngine_new ctx uninit))
  /\ (forall e : CliEngine ContextType,
         buffer_wf (reset_session e) /\ buffer_clean (reset_session e)).
Proof.
  split; [apply poll_wf_clean|]. split.
  - intros ctx uninit Hl. split; [done|]. cbn. lia.
  - intros e. split; [split; [reflexivity | cbn; lia]|].
    intros i Hi. unfold reset_session. engine_simpl.
    apply lookup_replicate_2. lia.
Qed.

Lemma poll_keeps_cursor_in_buffer_witness :
  buffer_wf
    (poll ([] : list (CommandDefinition unit)) (lit "> ")
       [replicate 200 "a"%char; [BS; BS]; lit "x" ++ [CR]]
       (CliEngine_new tt (replicate CMD_BUFFER_SIZE NUL))).1.1.
Proof.
  apply (proj1 (poll_keeps_cursor_in_buffer unit [] (lit "> "))).
  split; [reflexivity | cbn; unfold CMD_BUFFER_SIZE; lia].
Defined.

(** X6. Backspace (8 or 127) on an empty line changes nothing and writes
    nothing. On a line with room, a regular character followed by a
    backspace leaves the engine exactly as it was (when the cells from
    the cursor on are NUL, as they are after a reset) and the sink gets
    the echo of the character and one erase sequence; so the bytes that
    follow are handled as if the two had not been typed. *)
Theorem backspace_undoes_character (ContextType : Type) :
  (forall (bs : ascii) (e : CliEngine ContextType),
      bs = BS \/ bs = DEL -> input_pos_ e = 0%nat ->
      input_char bs e = (e, [], None))
  /\ (forall (c bs : ascii) (rest : list ascii) (e : CliEngine ContextType),
         regular c -> bs = BS \/ bs = DEL ->
         buffer_wf e -> buffer_clean e ->
         (input_pos_ e < CMD_BUFFER_SIZE - 1)%nat ->
         input_loop (c :: bs :: rest) e
         = ((input_loop rest e).1.1,
            [Io_put_byte c; Io_send_backspace] ++ (input_loop rest e).1.2,
            (input_loop rest e).2)).
Proof.
  split.
  - intros bs e Hbs Hpos. rewrite (input_char_backspace bs e Hbs).
    by rewrite Hpos.
  - intros c bs rest e Hc Hbs [Hl Hp] Hcl Hroom.
    cbn [input_loop]. rewrite (input_char_regular_step c e Hc).
    apply Nat.ltb_lt in Hroom as Hroom'. rewrite Hroom'.
    rewrite (input_char_backspace bs _ Hbs). engine_simpl.
    replace (0 <? input_pos_ e + 1)%nat with true
      by (symmetry; apply Nat.ltb_lt; lia).
    replace (input_pos_ e + 1 - 1)%nat with (input_pos_ e) by lia.
    rewrite list_insert_insert_eq.
    rewrite list_insert_id by (apply Hcl; unfold CMD_BUFFER_SIZE in *; lia).
    assert (set_input_buffer (input_buffer_ e)
              (set_input_pos (input_pos_ e)
                 (set_input_pos (input_pos_ e + 1)
                    (set_input_buffer
                       (<[input_pos_ e := c]> (input_buffer_ e)) e))) = e)
      as -> by (by destruct e).
    by destruct (input_loop rest e) as [[e2 out2] r].
Qed.

Lemma backspace_undoes_character_witness :
  input_loop ("x"%char :: BS :: lit "ed")
    (poll ([] : list (CommandDefinition unit)) (lit "> ") [lit "l"]
       (CliEngine_new tt (replicate CMD_BUFFER_SIZE NUL))).1.1
  = let e := (poll ([] : list (CommandDefinition unit)) (lit "> ") [lit "l"]
                (CliEngine_new tt (replicate CMD_BUFFER_SIZE NUL))).1.1 in
    ((input_loop (lit "ed") e).1.1,
     [Io_put_byte "x"%char; Io_send_backspace] ++ (input_loop (lit "ed") e).1.2,
     (input_loop (lit "ed") e).2).
Proof.
  apply (proj2 (backspace_undoes_character unit)).
  - reflexivity.
  - by left.
  - split; [reflexivity | cbn; unfold CMD_BUFFER_SIZE; lia].
  - intros i Hi. vm_compute in Hi. destruct Hi as [Hlo Hhi].
    change (input_buffer_ _) with ("l"%char :: replicate 127 NUL).
    destruct i as [|i]; [lia|]. cbn [lookup list_lookup].
    apply lookup_replicate_2. lia.
  - cbn. unfold CMD_BUFFER_SIZE. lia.
Defined.

(** X7. Chunking invariance where it holds: a byte sequence without CR and
    LF (regular characters and backspaces, in any order) leaves the same
    engine and the same echo, and completes no line, however it is cut
    into chunks for successive calls of [get_command_input]. *)
Theorem chunking_invariant_without_terminator (ContextType : Type)
    (chunks : list (list ascii)) (e : CliEngine ContextType) :
  Forall (fun c => c <> CR /\ c <> LF) (concat chunks) ->
  feed_chunks chunks e = feed_chunks [concat chunks] e
  /\ (feed_chunks chunks e).2 = [].
Proof.
  intros Hb. pose proof (input_loop_no_terminator (concat chunks) e Hb) as Hn.
  destruct (input_loop (concat chunks) e) as [[e1 out1] r] eqn:Hloop.
  cbn [snd] in Hn. subst r.
  rewrite (feed_chunks_no_completion chunks e e1 out1 Hloop).
  rewrite (feed_chunks_no_completion [concat chunks] e e1 out1);
    [done|]. cbn [concat]. by rewrite app_nil_r.
Qed.

Lemma chunking_invariant_without_terminator_witness :
  feed_chunks [lit "le"; [BS]; lit "ed o"; []; lit "n"]
    (CliEngine_new tt (replicate CMD_BUFFER_SIZE NUL))
  = feed_chunks [concat [lit "le"; [BS]; lit "ed o"; []; lit "n"]]
      (CliEngine_new tt (replicate CMD_BUFFER_SIZE NUL)).
Proof.
  apply (chunking_invariant_without_terminator unit).
  repeat constructor; discriminate.
Defined.

(** X8. Calls of [process_input] that receive no byte: the first sends the
    prompt if it was not out already, the later ones write nothing, and
    the line buffer, the cursor, the last terminator and the context are
    untouched; nothing is dispatched. *)
Theorem idle_polls_send_prompt_once (ContextType : Type)
    (commands : list (CommandDefinition ContextType)) (prompt : list ascii)
    (n : nat) (e : CliEngine ContextType) :
  poll commands prompt (replicate (S n) []) e
  = (set_prompt_sent true e,
     if prompt_sent_ e then [] else [Io_send_prompt prompt], []).
Proof. apply poll_idle. Qed.

(** X9. Typing a command and giving it to [execute_command] dispatch the
    same invocation: when the line buffer is empty, a call of
    [process_input] that receives a non-empty line of regular characters
    with at least one argument, followed by CR, leaves the context that
    [execute_command] leaves on that line and writes, after the prompt
    (if it was not out), the echo and a newline, what [execute_command]
    writes, followed by the "not found" report exactly when
    [execute_command] returns false; the prompt flag is cleared. *)
Theorem typed_line_executes (ContextType : Type)
    (commands : list (CommandDefinition ContextType)) (prompt : list ascii)
    (line : list ascii) (e : CliEngine ContextType) :
  buffer_wf e -> input_pos_ e = 0%nat ->
  Forall regular line -> line <> [] ->
  0 < argc (parse_command_line line) ->
  let '(handled, e2, out2) := execute_command commands line e in
  process_input commands prompt (line ++ [CR]) e
  = (mkCliEngine (context_ e2) (replicate CMD_BUFFER_SIZE NUL) 0 CR false,
     (if prompt_sent_ e then [] else [Io_send_prompt prompt])
     ++ (map Io_put_byte (take (CMD_BUFFER_SIZE - 1) line) ++ [Io_println])
     ++ out2
     ++ (if handled then []
         else [Io_print (lit "Command " ++ [DQUOTE]);
               Io_print (argv_row (parse_command_line line) 0);
               Io_println_str not_found_tail]),
     Some (parse_command_line line)).
Proof.
  intros Hwf Hpos Hline Hne Hargc. unfold execute_command.
  rewrite (dispatch_command_context commands _ e).
  destruct (dispatch_command commands (parse_command_line line)
              (CliEngine_new (context_ e) [])) as [[handled e0] out2] eqn:Hd.
  set (e1 := mkCliEngine (context_ e) (replicate CMD_BUFFER_SIZE NUL) 0 CR true).
  rewrite (process_input_dispatch commands prompt (line ++ [CR]) e
             (set_prompt_sent true e)
             (if prompt_sent_ e then [] else [Io_send_prompt prompt])
             e1 (map Io_put_byte (take (CMD_BUFFER_SIZE - 1) line) ++ [Io_println])
             (parse_command_line line) handled (set_context (context_ e0) e1) out2).
  - engine_simpl. by destruct handled.
  - unfold prompt_if_needed. by destruct e as [ctx buf pos last []].
  - by rewrite (get_command_input_typed_line line CR (set_prompt_sent true e)
                  Hwf Hpos Hline Hne (or_introl eq_refl)).
  - done.
  - rewrite dispatch_command_context. subst e1. cbn [context_]. by rewrite Hd.
Qed.

Lemma typed_line_executes_witness :
  let commands :=
    [mkCommandDefinition (lit "led")
       (fun (args : CommandArgs) (ctx : nat) =>
          (S ctx, [Io_println_str (arg args 1)]))
       (lit "switch the led")] in
  let e := CliEngine_new 0%nat (replicate CMD_BUFFER_SIZE NUL) in
  let '(handled, e2, out2) := execute_command commands (lit "led on") e in
  process_input commands (lit "> ") (lit "led on" ++ [CR]) e
  = (mkCliEngine (context_ e2) (replicate CMD_BUFFER_SIZE NUL) 0 CR false,
     (if prompt_sent_ e then [] else [Io_send_prompt (lit "> ")])
     ++ (map Io_put_byte (take (CMD_BUFFER_SIZE - 1) (lit "led on"))
         ++ [Io_println])
     ++ out2
     ++ (if handled then []
         else [Io_print (lit "Command " ++ [DQUOTE]);
               Io_print (argv_row (parse_command_line (lit "led on")) 0);
               Io_println_str not_found_tail]),
     Some (parse_command_line (lit "led on"))).
Proof.
  intros commands e.
  apply (typed_line_executes nat commands (lit "> ") (lit "led on") e).
  - split; [reflexivity | cbn; unfold CMD_BUFFER_SIZE; lia].
  - reflexivity.
  - repeat constructor.
  - discriminate.
  - vm_compute. reflexivity.
Defined.

(** * Further properties of the dispatch table *)

(** X10. The user table is searched in registration order and the first
    entry whose name equals [argv[0]] is the one that runs: when [argv[0]]
    is not "help", matches no entry of [pre] and matches [cmd],
    [dispatch_command] on the table [pre ++ cmd :: post] returns true, the
    context is the one that the handler of [cmd] leaves when it is given
    the invocation and the context, and the sink gets what that handler
    writes; the entries of [post] play no part, also when one of them has
    the same name. *)
Theorem dispatch_command_first_match (ContextType : Type)
    (pre post : list (CommandDefinition ContextType))
    (cmd : CommandDefinition ContextType) (args : CommandArgs)
    (e : CliEngine ContextType) :
  argc args <> 0 ->
  strcmp_eq (argv_row args 0) (lit "help") = false ->
  no_user_match pre args ->
  strcmp_eq (argv_row args 0) (name cmd) = true ->
  dispatch_command (pre ++ cmd :: post) args e
  = (true, set_context (execute cmd args (context_ e)).1 e,
     (execute cmd args (context_ e)).2).
Proof.
  intros Hargc Hhelp Hpre Hcmd. unfold dispatch_command.
  apply Z.eqb_neq in Hargc. rewrite Hargc, Hhelp.
  assert ((command_count_ _ (pre ++ cmd :: post) =? 0)%nat = false) as ->.
  { apply Nat.eqb_neq. unfold command_count_. rewrite length_app. cbn. lia. }
  induction Hpre as [|p pre Hp _ IH]; cbn [app dispatch_loop].
  - rewrite Hcmd. by destruct (execute cmd args (context_ e)).
  - by rewrite Hp.
Qed.

Lemma dispatch_command_first_match_witness :
  let first := mkCommandDefinition (lit "led")
                 (fun (_ : CommandArgs) (ctx : nat) => (ctx + 1, [Io_println]))%nat
                 (lit "first") in
  let second := mkCommandDefinition (lit "led")
                  (fun (_ : CommandArgs) (ctx : nat) => (ctx + 10, []))%nat
                  (lit "second") in
  let other := mkCommandDefinition (lit "fan")
                 (fun (_ : CommandArgs) (ctx : nat) => (ctx + 100, []))%nat
                 (lit "other") in
  let e := CliEngine_new 0%nat (replicate CMD_BUFFER_SIZE NUL) in
  dispatch_command ([other] ++ first :: [second])
    (parse_command_line (lit "led on")) e
  = (true, set_context 1%nat e, [Io_println]).
Proof.
  intros first second other e.
  apply (dispatch_command_first_match nat [other] [second] first
           (parse_command_line (lit "led on")) e).
  - vm_compute. discriminate.
  - vm_compute. reflexivity.
  - repeat constructor.
  - vm_compute. reflexivity.
Defined.

Lemma dispatch_loop_handled (ContextType : Type)
    (cmds : list (CommandDefinition ContextType)) (args : CommandArgs)
    (e : CliEngine ContextType) :
  (dispatch_loop cmds args e).1.1 = true
  <-> Exists (fun cmd => arg args 0 = c_str (name cmd)) cmds.
Proof.
  induction cmds as [|cmd cmds IH]; cbn [dispatch_loop].
  - split; [done | by intros H%Exists_nil].
  - rewrite Exists_cons, <- IH. unfold arg.
    destruct (strcmp_eq (argv_row args 0) (name cmd)) eqn:Hcmp.
    + apply strcmp_eq_true in Hcmp.
      destruct (execute cmd args (context_ e)). cbn. tauto.
    + assert (c_str (argv_row args 0) <> c_str (name cmd)) as Hne.
      { intros Heq%strcmp_eq_true. congruence. }
      tauto.
Qed.

(** X11. [dispatch_command] returns true exactly when [argc] is not 0 and
    [argv[0]], as a C string, is "help" or is equal, character for
    character, to the name of an entry of the user table. *)
Theorem dispatch_command_handled_iff (ContextType : Type)
    (commands : list (CommandDefinition ContextType)) (args : CommandArgs)
    (e : CliEngine ContextType) :
  (dispatch_command commands args e).1.1 = true
  <-> argc args <> 0
      /\ (arg args 0 = lit "help"
          \/ Exists (fun cmd => arg args 0 = c_str (name cmd)) commands).
Proof.
  unfold dispatch_command.
  destruct (Z.eqb_spec (argc args) 0) as [H0|Hn0]; [cbn; intuition congruence|].
  destruct (strcmp_eq (argv_row args 0) (lit "help")) eqn:Hhelp.
  { apply strcmp_eq_true in Hhelp. cbn. unfold arg. tauto. }
  assert (arg args 0 <> lit "help") as Hnh.
  { intros Heq. unfold arg in Heq.
    assert (strcmp_eq (argv_row args 0) (lit "help") = true)
      by (by apply strcmp_eq_true). congruence. }
  destruct (Nat.eqb_spec (command_count_ _ commands) 0) as [Hc0|_].
  { destruct commands; [|done]. cbn. split; [done|].
    intros (_ & [?|Hex%Exists_nil]); done. }
  rewrite dispatch_loop_handled. tauto.
Qed.

Lemma dispatch_command_handled_iff_witness :
  (dispatch_command (@nil (CommandDefinition unit))
     (parse_command_line (lit "help")) (CliEngine_new tt [])).1.1 = true.
Proof.
  apply (proj2 (dispatch_command_handled_iff unit []
                  (parse_command_line (lit "help")) (CliEngine_new tt []))).
  split; [vm_compute; discriminate|left; vm_compute; reflexivity].
Defined.

(** * Further properties of the help listing *)

(** X12. The help listing is a blank line, the header, the line of the
    built-in [help], one line for each entry of the table in registration
    order (or the line that says there is none) and a blank line. All its
    lines are printed with one format, whose padding width is the length
    of the longest name among "help" and the names of the table: it is at
    least 4, at least the length of every name, and it is 4 or the length
    of one of the names. *)
Theorem print_help_listing (ContextType : Type)
    (commands : list (CommandDefinition ContextType)) :
  let width := max_name_len_loop _ commands (strlen (lit "help")) in
  (4 <= width)%nat
  /\ Forall (fun cmd => (strlen (name cmd) <= width)%nat) commands
  /\ (width = 4%nat \/ Exists (fun cmd => strlen (name cmd) = width) commands)
  /\ print_help commands
     = [Io_println; Io_println_str (lit "Available commands:");
        Io_printf (help_fmt width) (lit "help") (lit "Show available commands")]
       ++ match commands with
          | [] => [Io_println_str (lit "  (No additional commands registered)")]
          | _ :: _ =>
              map (fun cmd => Io_printf (help_fmt width) (name cmd) (help cmd))
                  commands
          end
       ++ [Io_println]
  /\ length (print_help commands) = (4 + Nat.max 1 (length commands))%nat.
Proof.
  intros width.
  destruct (max_name_len_loop_spec _ commands (strlen (lit "help")))
    as (Hm & Hall & Hex).
  fold width in Hm, Hall, Hex.
  split; [exact Hm|]. split; [exact Hall|]. split; [exact Hex|].
  unfold print_help. fold width. unfold command_count_.
  destruct commands as [|cmd commands]; [by split|].
  cbn [length Nat.ltb Nat.leb]. split; [done|].
  rewrite !length_app, length_map. cbn [length]. lia.
Qed.

(** * Properties of the default methods of [CliIoInterface] *)

Section DefaultMethods.

Import CliIoInterface.

Variable T : Type.
Variable put_byte : ascii -> T -> T.
Variable vsnprintf : list ascii -> list ascii -> list ascii -> list ascii.

Lemma put_each_app (a b : list ascii) (t : T) :
  put_each T put_byte (a ++ b) t = put_each T put_byte b (put_each T put_byte a t).
Proof. revert t. induction a as [|c a IH]; intros t; cbn; [done|]. apply IH. Qed.

(** [put_bytes] hands the first [len] bytes of [data] to [put_byte]. *)
Lemma put_bytes_take (data : list ascii) (len : nat) (t : T) :
  (len <= length data)%nat ->
  put_bytes T put_byte data len t = put_each T put_byte (take len data) t.
Proof.
  revert data t. induction len as [|len IH]; intros data t Hlen; [done|].
  destruct data as [|c data]; cbn [length] in Hlen; [lia|].
  cbn [put_bytes take put_each deref hd tl]. apply IH. lia.
Qed.

Lemma take_strlen (p : list ascii) : take (strlen p) p = c_str p.
Proof.
  unfold strlen. induction p as [|c p IH]; cbn [c_str]; [done|].
  destruct (Ascii.eqb c NUL); [done|]. cbn [length take]. by rewrite IH.
Qed.

Lemma print_bytes (str : list ascii) (t : T) :
  print T put_byte str t = put_each T put_byte (c_str str) t.
Proof.
  unfold print. destruct (Nat.ltb_spec 0 (strlen str)) as [Hlt|Hge].
  - rewrite put_bytes_take by apply c_str_length_le. by rewrite take_strlen.
  - unfold strlen in Hge. destruct (c_str str); [done|].
    cbn [length] in Hge. lia.
Qed.

Lemma printf_bytes (fmt a1 a2 : list ascii) (t : T) :
  printf T put_byte vsnprintf fmt a1 a2 t
  = put_each T put_byte (take 63 (vsnprintf fmt a1 a2)) t.
Proof.
  unfold printf. set (text := vsnprintf fmt a1 a2).
  destruct (Z.ltb_spec 0 (Z.of_nat (length text))) as [Hlt|Hge].
  - rewrite put_bytes_take.
    2:{ rewrite length_app, length_take. cbn [length].
        destruct (Z.leb_spec 64 (Z.of_nat (length text))); lia. }
    f_equal. destruct (Z.leb_spec 64 (Z.of_nat (length text))) as [Hbig|Hsmall].
    + change (Z.to_nat (64 - 1)) with 63%nat.
      rewrite take_app_le by (rewrite length_take; lia).
      by rewrite take_take, Nat.min_id.
    + rewrite Nat2Z.id, take_app_le by (rewrite length_take; lia).
      rewrite take_take. by rewrite !take_ge by lia.
  - destruct text; [done | cbn [length] in Hge; lia].
Qed.

Lemma run_call_bytes (call : IoCall) (t : T) :
  run_call T put_byte vsnprintf call t
  = put_each T put_byte (call_bytes vsnprintf call) t.
Proof.
  destruct call; cbn [run_call call_bytes].
  - done.
  - apply print_bytes.
  - unfold println. by rewrite print_bytes.
  - unfold println_str, println. by rewrite !print_bytes, put_each_app.
  - apply printf_bytes.
  - unfold send_prompt. apply print_bytes.
  - unfold send_backspace. by rewrite print_bytes.
Qed.

Lemma run_calls_bytes (out : list IoCall) (t : T) :
  run_calls T put_byte vsnprintf out t
  = put_each T put_byte (concat (map (call_bytes vsnprintf) out)) t.
Proof.
  revert t. induction out as [|call out IH]; intros t; cbn [run_calls map concat];
    [done|].
  by rewrite put_each_app, IH, run_call_bytes.
Qed.

End DefaultMethods.

(** X13. With the default methods of [CliIoInterface], everything that
    the engine writes reaches the adapter as calls of [put_byte], one per
    byte and in order: [print] hands over the characters of its C string
    and nothing for an empty string, [println] CR LF, [send_backspace]
    the three bytes 8, 32, 8, and [printf] at most the first 63 characters
    of the formatted text, the rest being cut without an error. *)
Theorem default_methods_put_each_byte (T : Type) (put_byte : ascii -> T -> T)
    (vsnprintf : list ascii -> list ascii -> list ascii -> list ascii)
    (out : list IoCall) (t : T) :
  CliIoInterface.run_calls T put_byte vsnprintf out t
  = CliIoInterface.put_each T put_byte
      (concat (map (CliIoInterface.call_bytes vsnprintf) out)) t
  /\ Forall (fun call =>
               match call with
               | Io_printf fmt a1 a2 =>
                   CliIoInterface.call_bytes vsnprintf call
                   `prefix_of` vsnprintf fmt a1 a2
                   /\ (length (CliIoInterface.call_bytes vsnprintf call) <= 63)%nat
               | Io_print str | Io_send_prompt str =>
                   CliIoInterface.call_bytes vsnprintf call = c_str str
               | Io_println_str str =>
                   CliIoInterface.call_bytes vsnprintf call = c_str str ++ [CR; LF]
               | Io_println =>
                   CliIoInterface.call_bytes vsnprintf call = [CR; LF]
               | Io_send_backspace =>
                   CliIoInterface.call_bytes vsnprintf call = [BS; SPC; BS]
               | Io_put_byte c =>
                   CliIoInterface.call_bytes vsnprintf call = [c]
               end) out.
Proof.
  split; [apply run_calls_bytes|].
  apply Forall_forall. intros call _. destruct call; try reflexivity.
  cbn [CliIoInterface.call_bytes]. split; [apply prefix_take|].
  rewrite length_take. lia.
Qed.

(** The default [get_bytes] on a transport that holds its pending bytes in
    a queue. *)
Lemma get_bytes_loop_queue (T : Type) (get_byte : T -> ascii * T)
    (byte_available : T -> bool * T) (pending : T -> list ascii) :
  (forall t, (byte_available t).1 = negb (bool_decide (pending t = []))
             /\ pending (byte_available t).2 = pending t) ->
  (forall t c rest, pending t = c :: rest ->
                    (get_byte t).1 = c /\ pending (get_byte t).2 = rest) ->
  forall (fuel : nat) (buffer : list ascii) (max_len count : nat) (t : T),
    (max_len - count <= fuel)%nat ->
    (count <= max_len)%nat -> (max_len <= length buffer)%nat ->
    let '(buffer', n, t') :=
      CliIoInterface.get_bytes_loop T get_byte byte_available fuel buffer
        max_len count t in
    n = (count + Nat.min (max_len - count) (length (pending t)))%nat
    /\ take n buffer' = take count buffer ++ take (max_len - count) (pending t)
    /\ length buffer' = length buffer
    /\ pending t' = drop (max_len - count) (pending t).
Proof.
  intros Havail Hget.
  induction fuel as [|fuel IH]; intros buffer max_len count t Hfuel Hc Hlen;
    cbn [CliIoInterface.get_bytes_loop].
  { replace (max_len - count)%nat with 0%nat by lia.
    rewrite take_0, app_nil_r, drop_0. repeat split; (done || lia). }
  destruct (Nat.ltb_spec count max_len) as [Hlt|Hge].
  2:{ replace (max_len - count)%nat with 0%nat by lia.
      rewrite take_0, app_nil_r, drop_0. repeat split; (done || lia). }
  destruct (Havail t) as [Ha Hp].
  destruct (byte_available t) as [available t1]. cbn [fst snd] in Ha, Hp.
  subst available.
  destruct (pending t) as [|c rest] eqn:Hpend.
  - cbn [bool_decide decide_rel negb]. rewrite bool_decide_eq_true_2 by done.
    cbn [negb length]. rewrite take_nil, app_nil_r, drop_nil, Nat.min_0_r.
    rewrite Nat.add_0_r. repeat split; (done || lia).
  - rewrite bool_decide_eq_false_2 by done. cbn [negb].
    destruct (Hget t1 c rest Hp) as [Hc1 Hp1].
    destruct (get_byte t1) as [c1 t2]. cbn [fst snd] in Hc1, Hp1. subst c1.
    specialize (IH (<[count := c]> buffer) max_len (S count) t2
                  ltac:(lia) ltac:(lia) ltac:(by rewrite length_insert)).
    destruct (CliIoInterface.get_bytes_loop T get_byte byte_available fuel
                (<[count := c]> buffer) max_len (S count) t2)
      as [[buffer' n] t'].
    destruct IH as (Hn & Ht & Hl & Hp').
    rewrite Hp1 in Hn, Ht, Hp'. rewrite length_insert in Hl.
    replace (max_len - count)%nat with (S (max_len - S count)) by lia.
    cbn [length take drop]. split; [lia|]. split; [|done].
    rewrite Ht, (take_S_r _ _ c) by (apply list_lookup_insert_eq; lia).
    rewrite take_insert_ge by lia. by rewrite <- (assoc_L (++)).
Qed.

(** X14. The default [get_bytes], on a transport whose [byte_available]
    tells whether its queue of pending bytes is non-empty and whose
    [get_byte] takes the first of them: it stores the first [max_len]
    pending bytes (all of them if there are fewer) at the start of the
    buffer, returns their number, leaves the rest of the queue pending in
    the same order, and never reads when nothing is pending. *)
Theorem default_get_bytes_takes_pending (T : Type) (get_byte : T -> ascii * T)
    (byte_available : T -> bool * T) (pending : T -> list ascii)
    (buffer : list ascii) (max_len : nat) (t : T) :
  (forall t, (byte_available t).1 = negb (bool_decide (pending t = []))
             /\ pending (byte_available t).2 = pending t) ->
  (forall t c rest, pending t = c :: rest ->
                    (get_byte t).1 = c /\ pending (get_byte t).2 = rest) ->
  (max_len <= length buffer)%nat ->
  let '(buffer', count, t') :=
    CliIoInterface.get_bytes T get_byte byte_available buffer max_len t in
  count = Nat.min max_len (length (pending t))
  /\ take count buffer' = take max_len (pending t)
  /\ length buffer' = length buffer
  /\ pending t' = drop max_len (pending t).
Proof.
  intros Havail Hget Hlen. unfold CliIoInterface.get_bytes.
  pose proof (get_bytes_loop_queue T get_byte byte_available pending Havail Hget
                max_len buffer max_len 0 t ltac:(lia) ltac:(lia) Hlen) as H.
  destruct (CliIoInterface.get_bytes_loop T get_byte byte_available max_len
              buffer max_len 0 t) as [[buffer' n] t'].
  by rewrite Nat.sub_0_r, take_0, app_nil_l in H.
Qed.

Lemma default_get_bytes_takes_pending_witness :
  let '(buffer', count, t') :=
    CliIoInterface.get_bytes (list ascii)
      (fun t => (hd NUL t, tl t))
      (fun t => (negb (bool_decide (t = [])), t))
      (replicate 4 NUL) 4 (lit "status") in
  count = Nat.min 4 (length (lit "status"))
  /\ take count buffer' = take 4 (lit "status")
  /\ length buffer' = length (replicate 4 NUL)
  /\ t' = drop 4 (lit "status").
Proof.
  apply (default_get_bytes_takes_pending (list ascii)
           (fun t => (hd NUL t, tl t))
           (fun t => (negb (bool_decide (t = [])), t))
           (fun t => t) (replicate 4 NUL) 4 (lit "status")).
  - intros t. split; reflexivity.
  - intros t c rest ->. split; reflexivity.
  - cbn. lia.
Defined.

(** * Further properties of the WiFi adapters *)

Section AdapterMore.

Import Stdlib.Init.Byte.
Import ESP32WiFiIo.

(** Induction along the scan of the framing filter. *)
Lemma strip_control_sequences_ind (P : list byte -> Prop) :
  P [] ->
  (forall c rest, Byte.eqb c xff = false -> P rest -> P (c :: rest)) ->
  (forall x y rest, P rest -> P (xff :: x :: y :: rest)) ->
  P [xff] ->
  (forall x, P [xff; x]) ->
  forall data, P data.
Proof.
  intros Hnil Hdata Hseq H1 H2 data.
  remember (length data) as n eqn:Hn. revert data Hn.
  induction n as [n IH] using lt_wf_ind. intros data Hn.
  destruct data as [|c rest]; [done|].
  destruct (Byte.eqb c xff) eqn:Hc.
  - apply Byte.byte_dec_bl in Hc as ->.
    destruct rest as [|x [|y rest]]; [done | done |].
    apply Hseq. apply (IH (length rest)); [cbn [length] in Hn; lia | done].
  - apply Hdata; [done|]. apply (IH (length rest)); [cbn [length] in Hn; lia | done].
Qed.

Lemma strip_data (c : byte) (rest : list byte) :
  Byte.eqb c xff = false ->
  strip_control_sequences (c :: rest) = c :: strip_control_sequences rest.
Proof. intros H. cbn [strip_control_sequences]. by rewrite H. Qed.

Lemma strip_no_escape (data : list byte) :
  Forall (fun c => Byte.eqb c xff = false) (strip_control_sequences data).
Proof.
  induction data as [|c rest Hc IH|x y rest IH| |x]
    using strip_control_sequences_ind; try done.
  rewrite strip_data by done. by apply Forall_cons.
Qed.

Lemma strip_sublist (data : list byte) :
  strip_control_sequences data `sublist_of` data.
Proof.
  induction data as [|c rest Hc IH|x y rest IH| |x]
    using strip_control_sequences_ind.
  - done.
  - rewrite strip_data by done. by apply sublist_skip.
  - change (strip_control_sequences (xff :: x :: y :: rest))
      with (strip_control_sequences rest).
    by do 3 apply sublist_cons.
  - apply sublist_nil_l.
  - apply sublist_nil_l.
Qed.

Lemma strip_id (data : list byte) :
  Forall (fun c => Byte.eqb c xff = false) data ->
  strip_control_sequences data = data.
Proof.
  induction 1 as [|c rest Hc _ IH]; [done|]. by rewrite strip_data, IH.
Qed.

Lemma strip_app (a b : list byte) :
  ends_clean a = true ->
  strip_control_sequences (a ++ b)
  = strip_control_sequences a ++ strip_control_sequences b.
Proof.
  induction a as [|c rest Hc IH|x y rest IH| |x]
    using strip_control_sequences_ind; intros Hclean.
  - done.
  - cbn [app]. rewrite !strip_data by done. cbn [app]. f_equal. apply IH.
    cbn [ends_clean] in Hclean. by rewrite Hc in Hclean.
  - change (strip_control_sequences ((xff :: x :: y :: rest) ++ b))
      with (strip_control_sequences (rest ++ b)).
    change (strip_control_sequences (xff :: x :: y :: rest))
      with (strip_control_sequences rest).
    apply IH. exact Hclean.
  - discriminate Hclean.
  - discriminate Hclean.
Qed.

Variables EAGAIN EWOULDBLOCK : Z.

(** [get_bytes] when the adapter is connected and [recv] delivers data. *)
Lemma get_bytes_received (buffer : list byte) (rx : recv_outcome)
    (io : ESP32WiFiIo.t) :
  connected_ io = true -> 0 <= socket_fd_ io ->
  0 < recv_result rx ->
  recv_result rx <= Z.of_nat (length (recv_buffer rx)) ->
  exists (buffer' : list byte) (count : nat),
    get_bytes EAGAIN EWOULDBLOCK buffer rx io = (io, buffer', count)
    /\ take count buffer'
       = strip_control_sequences
           (take (Z.to_nat (recv_result rx)) (recv_buffer rx))
    /\ (count <= Z.to_nat (recv_result rx))%nat
    /\ length buffer' = length (recv_buffer rx).
Proof.
  intros Hconn Hfd Hres Hlen. unfold get_bytes.
  rewrite Hconn. cbn [negb orb].
  destruct (Z.ltb_spec (socket_fd_ io) 0) as [?|_]; [lia|].
  destruct (Z.leb_spec (recv_result rx) 0) as [?|_]; [lia|].
  destruct (Z.eqb_spec (recv_result rx) 0) as [?|_]; [lia|].
  destruct (filter_loop_spec (Z.to_nat (recv_result rx))
              (Z.to_nat (recv_result rx)) 0 0 (recv_buffer rx))
    as (b' & w' & Hloop & Hl & Hw & Ht & Hd); [lia..|].
  rewrite Z2Nat.id in Hloop by lia. change (Z.of_nat 0) with 0 in Hloop.
  rewrite Hloop.
  rewrite Nat.sub_0_r, take_0, drop_0, app_nil_l in Ht.
  by exists b', w'.
Qed.

(** On data without an escape byte the filter changes nothing. *)
Lemma get_bytes_payload_is_data_aux (buffer : list byte) (rx : recv_outcome)
    (io : ESP32WiFiIo.t) :
  connected_ io = true -> 0 <= socket_fd_ io ->
  0 < recv_result rx ->
  recv_result rx <= Z.of_nat (length (recv_buffer rx)) ->
  Forall (fun c => c <> xff)
         (take (Z.to_nat (recv_result rx)) (recv_buffer rx)) ->
  take (get_bytes EAGAIN EWOULDBLOCK buffer rx io).2
       (get_bytes EAGAIN EWOULDBLOCK buffer rx io).1.2
  = take (Z.to_nat (recv_result rx)) (recv_buffer rx)
  /\ (get_bytes EAGAIN EWOULDBLOCK buffer rx io).2
     = Z.to_nat (recv_result rx).
Proof.
  intros Hconn Hfd Hres Hlen Hplain.
  destruct (get_bytes_received buffer rx io Hconn Hfd Hres Hlen)
    as (b' & n & -> & Ht & Hn & Hl).
  cbn [fst snd].
  assert (strip_control_sequences
            (take (Z.to_nat (recv_result rx)) (recv_buffer rx))
          = take (Z.to_nat (recv_result rx)) (recv_buffer rx)) as Hid.
  { apply strip_id. eapply Forall_impl; [exact Hplain|].
    intros c Hc. destruct (Byte.eqb c xff) eqn:He; [|done].
    by apply Byte.byte_dec_bl in He. }
  rewrite Hid in Ht. split; [done|].
  apply (f_equal length) in Ht. rewrite !length_take in Ht. lia.
Qed.

End AdapterMore.

Section AdapterTheorems.

Import Stdlib.Init.Byte.
Import ESP32WiFiIo.

(** X15. The payload that [get_bytes] returns for received data never
    contains the escape byte 0xFF; it is made of received bytes, in their
    order, so it is never longer than what was received; and when the
    received bytes contain no 0xFF, it is exactly the received bytes and
    the count is the return value of [recv]. *)
Theorem get_bytes_payload_is_data (EAGAIN EWOULDBLOCK : Z)
    (buffer : list Byte.byte) (rx : ESP32WiFiIo.recv_outcome)
    (io : ESP32WiFiIo.t) :
  ESP32WiFiIo.connected_ io = true -> 0 <= ESP32WiFiIo.socket_fd_ io ->
  0 < ESP32WiFiIo.recv_result rx ->
  ESP32WiFiIo.recv_result rx
  <= Z.of_nat (length (ESP32WiFiIo.recv_buffer rx)) ->
  let received :=
    take (Z.to_nat (ESP32WiFiIo.recv_result rx)) (ESP32WiFiIo.recv_buffer rx) in
  let r := ESP32WiFiIo.get_bytes EAGAIN EWOULDBLOCK buffer rx io in
  Forall (fun c => c <> Byte.xff) (payload_of r)
  /\ payload_of r `sublist_of` received
  /\ (r.2 <= Z.to_nat (ESP32WiFiIo.recv_result rx))%nat
  /\ (Forall (fun c => c <> Byte.xff) received ->
      payload_of r = received
      /\ r.2 = Z.to_nat (ESP32WiFiIo.recv_result rx)).
Proof.
  intros Hconn Hfd Hres Hlen received r. subst r.
  destruct (get_bytes_received EAGAIN EWOULDBLOCK buffer rx io Hconn Hfd Hres Hlen)
    as (b' & n & -> & Ht & Hn & Hl).
  unfold payload_of. cbn [fst snd]. fold received in Ht. rewrite Ht.
  split.
  { eapply Forall_impl; [apply strip_no_escape|].
    intros c Hc. by apply Byte.eqb_false. }
  split; [apply strip_sublist|]. split; [done|].
  intros Hplain.
  assert (strip_control_sequences received = received) as Hid.
  { apply strip_id. eapply Forall_impl; [exact Hplain|].
    intros c Hc. destruct (Byte.eqb c Byte.xff) eqn:He; [|done].
    by apply Byte.byte_dec_bl in He. }
  split; [done|].
  apply (f_equal length) in Ht. rewrite Hid in Ht.
  unfold received in Ht. rewrite !length_take in Ht. lia.
Qed.

Lemma get_bytes_payload_is_data_witness :
  let rx := ESP32WiFiIo.mkRecv 4 0
              [Byte.x6c; Byte.x65; Byte.x64; Byte.x0d; Byte.x00] in
  let r := ESP32WiFiIo.get_bytes 11 11 (replicate 5 Byte.x00) rx
             (ESP32WiFiIo.mk 3 true) in
  payload_of r = [Byte.x6c; Byte.x65; Byte.x64; Byte.x0d] /\ r.2 = 4%nat.
Proof.
  intros rx r.
  apply (get_bytes_payload_is_data 11 11 (replicate 5 Byte.x00) rx
           (ESP32WiFiIo.mk 3 true)
           ltac:(reflexivity) ltac:(vm_compute; discriminate)
           ltac:(reflexivity) ltac:(vm_compute; discriminate)).
  repeat constructor; discriminate.
Defined.

(** X16. The filter works on one call at a time, and two calls give what
    one call gives on the joined data whenever the first data end with a
    whole control sequence or with a data byte: if the bytes [a] delivered
    by one [recv] leave no escape byte without its two followers, the
    payload for [a ++ b] in one call is the payload for [a] followed by
    the payload for [b]. *)
Theorem get_bytes_payload_of_joined_data (EAGAIN EWOULDBLOCK : Z)
    (a b pad : list Byte.byte) (errno : Z) (buffer : list Byte.byte)
    (io : ESP32WiFiIo.t) :
  ESP32WiFiIo.connected_ io = true -> 0 <= ESP32WiFiIo.socket_fd_ io ->
  a <> [] -> b <> [] ->
  ends_clean a = true ->
  let rx (data : list Byte.byte) :=
    ESP32WiFiIo.mkRecv (Z.of_nat (length data)) errno (data ++ pad) in
  payload_of (ESP32WiFiIo.get_bytes EAGAIN EWOULDBLOCK buffer (rx (a ++ b)) io)
  = payload_of (ESP32WiFiIo.get_bytes EAGAIN EWOULDBLOCK buffer (rx a) io)
    ++ payload_of (ESP32WiFiIo.get_bytes EAGAIN EWOULDBLOCK buffer (rx b) io).
Proof.
  intros Hconn Hfd Ha Hb Hclean rx.
  assert (forall data, data <> [] ->
            payload_of (ESP32WiFiIo.get_bytes EAGAIN EWOULDBLOCK buffer (rx data) io)
            = strip_control_sequences data) as Hpay.
  { intros data Hdata.
    destruct (get_bytes_received EAGAIN EWOULDBLOCK buffer (rx data) io Hconn Hfd)
      as (b' & n & -> & Ht & _).
    - cbn. destruct data; [done | cbn [length]; lia].
    - cbn. rewrite length_app. lia.
    - unfold payload_of. cbn [fst snd]. rewrite Ht. cbn.
      by rewrite Nat2Z.id, take_app_length. }
  rewrite !Hpay; [by apply strip_app | done | done |].
  by destruct a.
Qed.

Lemma get_bytes_payload_of_joined_data_witness :
  let rx (data : list Byte.byte) :=
    ESP32WiFiIo.mkRecv (Z.of_nat (length data)) 0 (data ++ [Byte.x00]) in
  let io := ESP32WiFiIo.mk 3 true in
  let a := [Byte.x6c; Byte.xff; Byte.xfd; Byte.x03] in
  let b := [Byte.x65; Byte.x64] in
  payload_of (ESP32WiFiIo.get_bytes 11 11 [] (rx (a ++ b)) io)
  = payload_of (ESP32WiFiIo.get_bytes 11 11 [] (rx a) io)
    ++ payload_of (ESP32WiFiIo.get_bytes 11 11 [] (rx b) io).
Proof.
  intros rx io a b.
  apply (get_bytes_payload_of_joined_data 11 11 a b [Byte.x00] 0 [] io);
    (reflexivity || discriminate || (vm_compute; discriminate)).
Defined.

(** X17. [get_bytes] without data. When the adapter is not connected or
    has no socket, it returns 0 and touches nothing, whatever [recv] would
    do. When [recv] returns 0 or less, it returns 0, and the adapter stays
    connected exactly when [errno] is [EAGAIN] or [EWOULDBLOCK]: also when
    the return value is 0, the branch for [result == 0] being behind the
    test [result <= 0]. In no case does [get_bytes] change the socket or
    turn a disconnected adapter into a connected one. *)
Theorem get_bytes_without_data (EAGAIN EWOULDBLOCK : Z)
    (buffer : list byte) (rx : recv_outcome) (io : ESP32WiFiIo.t) :
  (connected_ io = false \/ socket_fd_ io < 0 ->
   get_bytes EAGAIN EWOULDBLOCK buffer rx io = (io, buffer, 0%nat))
  /\ (connected_ io = true -> 0 <= socket_fd_ io -> recv_result rx <= 0 ->
      get_bytes EAGAIN EWOULDBLOCK buffer rx io
      = (ESP32WiFiIo.mk (socket_fd_ io)
           (would_block EAGAIN EWOULDBLOCK (recv_errno rx)),
         recv_buffer rx, 0%nat))
  /\ socket_fd_ (get_bytes EAGAIN EWOULDBLOCK buffer rx io).1.1 = socket_fd_ io
  /\ (connected_ (get_bytes EAGAIN EWOULDBLOCK buffer rx io).1.1 = true ->
      connected_ io = true).
Proof.
  unfold get_bytes, would_block. destruct io as [fd conn]. cbn [connected_ socket_fd_].
  split; [|split; [|split]].
  - intros [-> | Hfd]; [done|].
    apply Z.ltb_lt in Hfd. rewrite Hfd. by rewrite orb_true_r.
  - intros -> Hfd Hres. cbn [negb orb].
    destruct (Z.ltb_spec fd 0) as [?|_]; [lia|].
    destruct (Z.leb_spec (recv_result rx) 0) as [_|?]; [|lia].
    by destruct (recv_errno rx =? EAGAIN), (recv_errno rx =? EWOULDBLOCK).
  - destruct (negb conn || (fd <? 0)); [done|].
    destruct (recv_result rx <=? 0).
    { by destruct (negb (recv_errno rx =? EAGAIN)
                   && negb (recv_errno rx =? EWOULDBLOCK)). }
    destruct (recv_result rx =? 0); [done|].
    by destruct (filter_loop _ _ _ _ _).
  - destruct conn; [done|]. done.
Qed.

Lemma get_bytes_without_data_witness :
  get_bytes 11 11 [x41] (mkRecv 0 11 [x41]) (ESP32WiFiIo.mk 3 true)
  = (ESP32WiFiIo.mk 3 true, [x41], 0%nat).
Proof.
  apply (proj1 (proj2 (get_bytes_without_data 11 11 [x41] (mkRecv 0 11 [x41])
                         (ESP32WiFiIo.mk 3 true))));
    (reflexivity || (vm_compute; discriminate)).
Defined.

(** X18. [byte_available] returns true exactly when the adapter is
    connected, has a socket and the peek returns more than 0; it leaves the
    socket as it is, and the adapter is connected afterwards exactly when
    it was connected before and the peek was not made, returned data, or
    failed with [EAGAIN] or [EWOULDBLOCK]: a return value of 0 (the peer
    has closed) always disconnects. *)
Theorem byte_available_result (EAGAIN EWOULDBLOCK : Z)
    (rx : recv_outcome) (io : ESP32WiFiIo.t) :
  let r := ESP32WiFiIoMethods.byte_available EAGAIN EWOULDBLOCK rx io in
  (r.2 = true
   <-> connected_ io = true /\ 0 <= socket_fd_ io /\ 0 < recv_result rx)
  /\ socket_fd_ r.1 = socket_fd_ io
  /\ (connected_ r.1 = true
      <-> connected_ io = true
          /\ (socket_fd_ io < 0 \/ 0 < recv_result rx
              \/ (recv_result rx < 0
                  /\ would_block EAGAIN EWOULDBLOCK (recv_errno rx) = true))).
Proof.
  unfold ESP32WiFiIoMethods.byte_available, would_block.
  destruct io as [fd conn]. cbn [connected_ socket_fd_].
  destruct conn; cbn [negb orb]; [|cbn; intuition congruence].
  destruct (Z.ltb_spec fd 0) as [Hfd|Hfd]; [cbn; intuition (congruence || lia)|].
  destruct (Z.leb_spec (recv_result rx) 0) as [Hres|Hres];
    [|cbn; intuition (congruence || lia)].
  destruct (Z.eqb_spec (recv_result rx) 0) as [H0|H0];
    [cbn; intuition (congruence || lia)|].
  cbn [orb].
  destruct (recv_errno rx =? EAGAIN), (recv_errno rx =? EWOULDBLOCK);
    cbn; intuition (congruence || lia).
Qed.

Lemma byte_available_result_witness :
  connected_
    (ESP32WiFiIoMethods.byte_available 11 11 (mkRecv (-1) 11 [])
       (ESP32WiFiIo.mk 3 true)).1 = true.
Proof.
  apply (proj2 (proj2 (proj2 (byte_available_result 11 11 (mkRecv (-1) 11 [])
                                (ESP32WiFiIo.mk 3 true))))).
  split; [reflexivity|]. right. right.
  split; [cbn [recv_result]; lia|reflexivity].
Defined.

(** X19. The adapter of [mcli_esp32_io.h] has no filter: for received data
    its [get_bytes] returns the return value of [recv] and the buffer as
    [recv] left it, so that it agrees with the filtering adapter exactly
    on the payload when the received bytes contain no 0xFF. It disconnects
    whenever [recv] returns 0, and on a negative return value unless
    [errno] is [EAGAIN] or [EWOULDBLOCK]. *)
Theorem plain_get_bytes (EAGAIN EWOULDBLOCK : Z)
    (buffer : list byte) (rx : recv_outcome) (io : ESP32WiFiIo.t) :
  connected_ io = true -> 0 <= socket_fd_ io ->
  (0 < recv_result rx ->
   ESP32WiFiIoPlain.get_bytes EAGAIN EWOULDBLOCK buffer rx io
   = (io, recv_buffer rx, Z.to_nat (recv_result rx)))
  /\ (0 < recv_result rx ->
      recv_result rx <= Z.of_nat (length (recv_buffer rx)) ->
      Forall (fun c => c <> xff)
             (take (Z.to_nat (recv_result rx)) (recv_buffer rx)) ->
      payload_of (get_bytes EAGAIN EWOULDBLOCK buffer rx io)
      = payload_of (ESP32WiFiIoPlain.get_bytes EAGAIN EWOULDBLOCK buffer rx io)
      /\ (get_bytes EAGAIN EWOULDBLOCK buffer rx io).2
         = (ESP32WiFiIoPlain.get_bytes EAGAIN EWOULDBLOCK buffer rx io).2)
  /\ (recv_result rx = 0 ->
      ESP32WiFiIoPlain.get_bytes EAGAIN EWOULDBLOCK buffer rx io
      = (ESP32WiFiIo.mk (socket_fd_ io) false, recv_buffer rx, 0%nat))
  /\ (recv_result rx < 0 ->
      ESP32WiFiIoPlain.get_bytes EAGAIN EWOULDBLOCK buffer rx io
      = (ESP32WiFiIo.mk (socket_fd_ io)
           (would_block EAGAIN EWOULDBLOCK (recv_errno rx)),
         recv_buffer rx, 0%nat)).
Proof.
  intros Hconn Hfd.
  assert (forall P : Prop, 0 < recv_result rx ->
            ESP32WiFiIoPlain.get_bytes EAGAIN EWOULDBLOCK buffer rx io
            = (io, recv_buffer rx, Z.to_nat (recv_result rx))) as Hdata.
  { intros _ Hres. unfold ESP32WiFiIoPlain.get_bytes. rewrite Hconn.
    cbn [negb orb].
    destruct (Z.ltb_spec (socket_fd_ io) 0) as [?|_]; [lia|].
    destruct (Z.ltb_spec (recv_result rx) 0) as [?|_]; [lia|].
    destruct (Z.eqb_spec (recv_result rx) 0) as [?|_]; [lia|]. done. }
  split; [exact (Hdata True)|]. split; [|split].
  - intros Hres Hlen Hplain. rewrite (Hdata True Hres).
    pose proof (get_bytes_payload_is_data_aux EAGAIN EWOULDBLOCK buffer rx io
                  Hconn Hfd Hres Hlen Hplain) as [Hp Hn].
    unfold payload_of in *. cbn [fst snd]. by rewrite Hp, Hn.
  - intros Hres. unfold ESP32WiFiIoPlain.get_bytes. rewrite Hconn, Hres.
    cbn [negb orb].
    destruct (Z.ltb_spec (socket_fd_ io) 0) as [?|_]; [lia|]. done.
  - intros Hres. unfold ESP32WiFiIoPlain.get_bytes, would_block.
    rewrite Hconn. cbn [negb orb].
    destruct (Z.ltb_spec (socket_fd_ io) 0) as [?|_]; [lia|].
    destruct (Z.ltb_spec (recv_result rx) 0) as [_|?]; [|lia].
    destruct io as [fd conn]. cbn [connected_ socket_fd_] in *. subst conn.
    by destruct (recv_errno rx =? EAGAIN), (recv_errno rx =? EWOULDBLOCK).
Qed.

Lemma plain_get_bytes_witness :
  ESP32WiFiIoPlain.get_bytes 11 11 [x00; x00] (mkRecv 2 0 [x41; xff])
    (ESP32WiFiIo.mk 3 true)
  = (ESP32WiFiIo.mk 3 true, [x41; xff], 2%nat).
Proof.
  apply (proj1 (plain_get_bytes 11 11 [x00; x00] (mkRecv 2 0 [x41; xff])
                  (ESP32WiFiIo.mk 3 true) ltac:(reflexivity)
                  ltac:(vm_compute; discriminate))).
  reflexivity.
Defined.

End AdapterTheorems.

(** ** The WiFi adapter: sending *)

Section AdapterSend.

Import Stdlib.Init.Byte.
Import ESP32WiFiIo.
Import ESP32WiFiIoMethods.

Variables EAGAIN EWOULDBLOCK : Z.

Lemma put_bytes_loop_inv (sends : list (nat -> send_outcome)) :
  forall (data : list byte) (len offset : nat) (io : ESP32WiFiIo.t)
         (wire : list byte) io' wire' offset' rest,
    (len <= length data)%nat -> Forall send_within sends ->
    (offset <= len)%nat -> wire = take offset data ->
    put_bytes_loop EAGAIN EWOULDBLOCK sends data len offset io wire
    = Some (io', wire', offset', rest) ->
    wire' = take offset' data
    /\ (offset <= offset' <= len)%nat
    /\ (io' = io \/ io' = disconnect io)
    /\ rest `suffix_of` sends
    /\ (offset' - offset <= CHUNK_SIZE * (length sends - length rest))%nat.
Proof.
  induction sends as [|send sends IH];
    intros data len offset io wire io' wire' offset' rest Hlen Hsends Hoff Hwire;
    cbn [put_bytes_loop].
  - destruct (Nat.ltb_spec offset len) as [Hlt|Hge]; [done|].
    intros [= <- <- <- <-]. cbn [length].
    repeat split; (done || lia || by left).
  - apply Forall_cons in Hsends as [Hsend Hsends].
    destruct (Nat.ltb_spec offset len) as [Hlt|Hge].
    2:{ intros [= <- <- <- <-].
        repeat split; (done || lia || by left). }
    set (chunk_len := if (len - offset <? CHUNK_SIZE)%nat
                      then (len - offset)%nat else CHUNK_SIZE).
    assert (0 < chunk_len <= len - offset /\ chunk_len <= CHUNK_SIZE)%nat
      as [Hchunk Hchunk'].
    { unfold chunk_len, CHUNK_SIZE.
      destruct (Nat.ltb_spec (len - offset) 32); lia. }
    pose proof (Hsend chunk_len (proj1 Hchunk)) as Hres.
    assert (length (send :: sends) = S (length sends)) as Hcons by done.
    destruct (Z.ltb_spec (send_result (send chunk_len)) 0) as [Hneg|Hnn].
    { destruct ((send_errno (send chunk_len) =? EAGAIN)
                || (send_errno (send chunk_len) =? EWOULDBLOCK)).
      - intros Hrun.
        destruct (IH _ _ _ _ _ _ _ _ _ Hlen Hsends Hoff Hwire Hrun)
          as (Hw & Ho & Hio & Hsuf & Hcnt).
        pose proof (suffix_length _ _ Hsuf) as Hsl.
        repeat split; [done|lia|lia|done|by apply suffix_cons_r|].
        rewrite Hcons. unfold CHUNK_SIZE in *. lia.
      - intros [= <- <- <- <-].
        repeat split; [done|lia|lia|by right|by apply suffix_cons_r|lia]. }
    destruct (Z.eqb_spec (send_result (send chunk_len)) 0) as [Hz|Hnz].
    { intros [= <- <- <- <-].
      repeat split; [done|lia|lia|by left|by apply suffix_cons_r|lia]. }
    intros Hrun.
    assert (wire ++ take (Z.to_nat (send_result (send chunk_len)))
                         (drop offset data)
            = take (offset + Z.to_nat (send_result (send chunk_len))) data)
      as Hwire'.
    { rewrite Hwire. apply take_take_drop. }
    assert (offset + Z.to_nat (send_result (send chunk_len)) <= len)%nat
      as Hoff' by lia.
    destruct (IH _ _ _ _ _ _ _ _ _ Hlen Hsends Hoff' Hwire' Hrun)
      as (Hw & Ho & Hio & Hsuf & Hcnt).
    pose proof (suffix_length _ _ Hsuf) as Hsl.
    repeat split; [done|lia|lia|done|by apply suffix_cons_r|].
    rewrite Hcons. unfold CHUNK_SIZE in *. lia.
Qed.

Lemma put_bytes_loop_complete (sends : list (nat -> send_outcome)) :
  forall (data : list byte) (len offset : nat) (io : ESP32WiFiIo.t)
         (wire : list byte),
    Forall send_takes sends -> (offset <= len)%nat ->
    (len - offset <= length sends)%nat ->
    exists wire' rest,
      put_bytes_loop EAGAIN EWOULDBLOCK sends data len offset io wire
      = Some (io, wire', len, rest).
Proof.
  induction sends as [|send sends IH];
    intros data len offset io wire Hsends Hoff Hfuel; cbn [put_bytes_loop].
  - cbn [length] in Hfuel.
    destruct (Nat.ltb_spec offset len) as [Hlt|Hge]; [lia|].
    replace offset with len by lia. by eexists _, _.
  - apply Forall_cons in Hsends as [Hsend Hsends]. cbn [length] in Hfuel.
    destruct (Nat.ltb_spec offset len) as [Hlt|Hge].
    2:{ replace offset with len by lia. by eexists _, _. }
    set (chunk_len := if (len - offset <? CHUNK_SIZE)%nat
                      then (len - offset)%nat else CHUNK_SIZE).
    assert (0 < chunk_len <= len - offset)%nat as Hchunk.
    { unfold chunk_len, CHUNK_SIZE.
      destruct (Nat.ltb_spec (len - offset) 32); lia. }
    destruct (Hsend chunk_len ltac:(lia)) as [Hpos Hle].
    destruct (Z.ltb_spec (send_result (send chunk_len)) 0) as [?|_]; [lia|].
    destruct (Z.eqb_spec (send_result (send chunk_len)) 0) as [?|_]; [lia|].
    apply IH; [done|lia|lia].
Qed.

Lemma send_takes_within (send : nat -> send_outcome) :
  send_takes send -> send_within send.
Proof. intros Htakes n Hn. by apply Htakes. Qed.

Lemma put_bytes_loop_blocked (blocked sends : list (nat -> send_outcome))
    (data : list byte) (len offset : nat) (io : ESP32WiFiIo.t)
    (wire : list byte) :
  (offset < len)%nat ->
  Forall (fun send => forall n,
            send_result (send n) < 0
            /\ would_block EAGAIN EWOULDBLOCK (send_errno (send n)) = true)
         blocked ->
  put_bytes_loop EAGAIN EWOULDBLOCK (blocked ++ sends) data len offset io wire
  = put_bytes_loop EAGAIN EWOULDBLOCK sends data len offset io wire.
Proof.
  intros Hlt. induction 1 as [|send blocked Hsend _ IH]; [done|].
  cbn [app put_bytes_loop].
  destruct (Nat.ltb_spec offset len) as [_|?]; [|lia].
  set (chunk_len := if (len - offset <? CHUNK_SIZE)%nat
                    then (len - offset)%nat else CHUNK_SIZE).
  destruct (Hsend chunk_len) as [Hneg Hblock]. unfold would_block in Hblock.
  destruct (Z.ltb_spec (send_result (send chunk_len)) 0) as [_|?]; [|lia].
  rewrite Hblock. exact IH.
Qed.

(** [put_byte] on a connected adapter whose [send] takes the byte. *)
Lemma put_byte_taken (send : nat -> send_outcome)
    (sends : list (nat -> send_outcome)) (c : byte) (io : ESP32WiFiIo.t) :
  connected_ io = true -> 0 <= socket_fd_ io ->
  send_result (send 1%nat) = 1 ->
  put_byte EAGAIN EWOULDBLOCK (send :: sends) c io
  = Some (io, [c], 1%nat, sends).
Proof.
  intros Hconn Hfd Hres. unfold put_byte, put_bytes. rewrite Hconn.
  cbn [negb orb].
  destruct (Z.ltb_spec (socket_fd_ io) 0) as [?|_]; [lia|].
  cbn [put_bytes_loop Nat.ltb Nat.leb Nat.sub CHUNK_SIZE]. rewrite Hres.
  cbn [Z.ltb Z.eqb Z.compare Pos.compare Z.to_nat Pos.to_nat Pos.iter_op
       Nat.add drop take app].
  destruct sends; reflexivity.
Qed.

(** [put_byte] on an adapter that is not connected calls no [send]. *)
Lemma put_byte_disconnected (sends : list (nat -> send_outcome)) (c : byte)
    (io : ESP32WiFiIo.t) :
  connected_ io = false ->
  put_byte EAGAIN EWOULDBLOCK sends c io = Some (io, [], 0%nat, sends).
Proof. intros Hconn. unfold put_byte, put_bytes. by rewrite Hconn. Qed.

End AdapterSend.

Section AdapterSendTheorems.

Import Stdlib.Init.Byte.
Import ESP32WiFiIo.
Import ESP32WiFiIoMethods.

(** X20. [put_bytes] sends a prefix of the data, in order. When every
    [send] takes no more than it is offered and the loop ends, the bytes
    that the socket took are the first [offset] bytes of [data], with
    [offset <= len], whatever the calls returned; no call was offered more
    than [CHUNK_SIZE] = 32 bytes, so that at least [offset / 32] calls were
    made. The socket is left as it is and a disconnected adapter stays
    disconnected; an adapter that is not connected or has no socket calls
    no [send] at all. *)
Theorem put_bytes_sends_prefix (EAGAIN EWOULDBLOCK : Z)
    (sends : list (nat -> send_outcome)) (data : list byte) (len : nat)
    (io io' : ESP32WiFiIo.t) (wire : list byte) (offset : nat)
    (rest : list (nat -> send_outcome)) :
  (len <= length data)%nat -> Forall send_within sends ->
  put_bytes EAGAIN EWOULDBLOCK sends data len io
  = Some (io', wire, offset, rest) ->
  wire = take offset data
  /\ (offset <= len)%nat
  /\ rest `suffix_of` sends
  /\ (offset <= CHUNK_SIZE * (length sends - length rest))%nat
  /\ socket_fd_ io' = socket_fd_ io
  /\ (connected_ io' = true -> connected_ io = true)
  /\ (connected_ io = false \/ socket_fd_ io < 0 ->
      io' = io /\ wire = [] /\ rest = sends).
Proof.
  intros Hlen Hsends. unfold put_bytes.
  destruct (negb (connected_ io) || (socket_fd_ io <? 0)) eqn:Hguard.
  - intros [= <- <- <- <-].
    split; [by rewrite take_0|]. split; [lia|]. split; [done|].
    split; [lia|]. done.
  - apply orb_false_iff in Hguard as [Hconn Hfd].
    apply negb_false_iff in Hconn. apply Z.ltb_ge in Hfd.
    intros Hrun.
    destruct (put_bytes_loop_inv EAGAIN EWOULDBLOCK sends data len 0 io []
                io' wire offset rest Hlen Hsends ltac:(lia)
                ltac:(by rewrite take_0) Hrun)
      as (Hw & Ho & Hio & Hsuf & Hcnt).
    rewrite Nat.sub_0_r in Hcnt.
    split; [done|]. split; [lia|]. split; [done|]. split; [done|].
    split; [by destruct Hio as [-> | ->]|]. split; [done|].
    intros [Hc | Hf]; [congruence|lia].
Qed.

Lemma put_bytes_sends_prefix_witness :
  [x41; x42] = take 2 [x41; x42; x43]
  /\ (2 <= 3)%nat.
Proof.
  refine (let H := put_bytes_sends_prefix 11 11
                     [fun _ => mkSend (-1) 11;
                      fun n => mkSend (Z.min 2 (Z.of_nat n)) 0;
                      fun _ => mkSend (-1) 5]
                     [x41; x42; x43] 3 (ESP32WiFiIo.mk 3 true)
                     (ESP32WiFiIo.mk 3 false) [x41; x42] 2 [] _ _ _ in
          conj (proj1 H) (proj1 (proj2 H))).
  - cbn [length]. lia.
  - repeat (apply List.Forall_cons; [intros n Hn; cbn [send_result]; lia|]).
    apply List.Forall_nil.
  - reflexivity.
Defined.

(** X21. [put_bytes] sends everything when the socket takes bytes. On a
    connected adapter, when every [send] takes at least one byte of what it
    is offered (and no more than that), [len] calls are enough: the loop
    ends with [offset = len], the socket has taken exactly the first [len]
    bytes of [data] in order, and the adapter is unchanged. *)
Theorem put_bytes_sends_all (EAGAIN EWOULDBLOCK : Z)
    (sends : list (nat -> send_outcome)) (data : list byte) (len : nat)
    (io : ESP32WiFiIo.t) :
  connected_ io = true -> 0 <= socket_fd_ io ->
  (len <= length data)%nat -> Forall send_takes sends ->
  (len <= length sends)%nat ->
  exists rest : list (nat -> send_outcome),
    put_bytes EAGAIN EWOULDBLOCK sends data len io
    = Some (io, take len data, len, rest)
    /\ rest `suffix_of` sends
    /\ (len <= CHUNK_SIZE * (length sends - length rest))%nat.
Proof.
  intros Hconn Hfd Hlen Hsends Hfuel. unfold put_bytes. rewrite Hconn.
  cbn [negb orb].
  destruct (Z.ltb_spec (socket_fd_ io) 0) as [?|_]; [lia|].
  destruct (put_bytes_loop_complete EAGAIN EWOULDBLOCK sends data len 0 io []
              Hsends ltac:(lia) ltac:(lia)) as (wire & rest & Hrun).
  assert (Forall send_within sends) as Hwithin.
  { eapply Forall_impl; [exact Hsends|]. apply send_takes_within. }
  destruct (put_bytes_loop_inv EAGAIN EWOULDBLOCK sends data len 0 io []
              io wire len rest Hlen Hwithin ltac:(lia)
              ltac:(by rewrite take_0) Hrun)
    as (Hw & Ho & Hio & Hsuf & Hcnt).
  rewrite Nat.sub_0_r in Hcnt.
  exists rest. rewrite Hrun, Hw. done.
Qed.

Lemma put_bytes_sends_all_witness :
  exists rest : list (nat -> send_outcome),
    put_bytes 11 11
      [fun n => mkSend (Z.of_nat n) 0; fun n => mkSend 1 0;
       fun n => mkSend (Z.of_nat n) 0]
      [x41; x42; x43] 3 (ESP32WiFiIo.mk 3 true)
    = Some (ESP32WiFiIo.mk 3 true, take 3 [x41; x42; x43], 3%nat, rest)
    /\ rest `suffix_of` [fun n => mkSend (Z.of_nat n) 0; fun n => mkSend 1 0;
                         fun n => mkSend (Z.of_nat n) 0]
    /\ (3 <= CHUNK_SIZE * (3 - length rest))%nat.
Proof.
  apply (put_bytes_sends_all 11 11
           [fun n => mkSend (Z.of_nat n) 0; fun n => mkSend 1 0;
            fun n => mkSend (Z.of_nat n) 0]
           [x41; x42; x43] 3 (ESP32WiFiIo.mk 3 true)).
  - reflexivity.
  - cbn [socket_fd_]. lia.
  - cbn [length]. lia.
  - repeat (apply List.Forall_cons; [intros n Hn; cbn [send_result]; lia|]).
    apply List.Forall_nil.
  - cbn [length]. lia.
Defined.

(** X22. [put_bytes] retries while the socket would block. On a connected
    adapter with something to send, calls of [send] that fail with [EAGAIN]
    or [EWOULDBLOCK] change nothing: the same chunk is offered again, so
    that the outcome is that of the calls which follow. The loop has not
    ended after any number of such calls alone. *)
Theorem put_bytes_retries_would_block (EAGAIN EWOULDBLOCK : Z)
    (blocked sends : list (nat -> send_outcome)) (data : list byte)
    (len : nat) (io : ESP32WiFiIo.t) :
  connected_ io = true -> 0 <= socket_fd_ io -> (0 < len)%nat ->
  Forall (fun send => forall n,
            send_result (send n) < 0
            /\ would_block EAGAIN EWOULDBLOCK (send_errno (send n)) = true)
         blocked ->
  put_bytes EAGAIN EWOULDBLOCK (blocked ++ sends) data len io
  = put_bytes EAGAIN EWOULDBLOCK sends data len io
  /\ put_bytes EAGAIN EWOULDBLOCK blocked data len io = None.
Proof.
  intros Hconn Hfd Hlen Hblocked. unfold put_bytes. rewrite Hconn.
  cbn [negb orb].
  destruct (Z.ltb_spec (socket_fd_ io) 0) as [?|_]; [lia|].
  split; [by apply put_bytes_loop_blocked|].
  rewrite <- (app_nil_r blocked).
  rewrite put_bytes_loop_blocked by done.
  cbn [put_bytes_loop].
  destruct (Nat.ltb_spec 0 len) as [_|?]; [done|lia].
Qed.

Lemma put_bytes_retries_would_block_witness :
  put_bytes 11 12 [fun _ => mkSend (-1) 11; fun _ => mkSend (-1) 12]
    [x41] 1 (ESP32WiFiIo.mk 3 true)
  = None.
Proof.
  apply (proj2 (put_bytes_retries_would_block 11 12
                  [fun _ => mkSend (-1) 11; fun _ => mkSend (-1) 12] []
                  [x41] 1 (ESP32WiFiIo.mk 3 true)
                  ltac:(reflexivity) ltac:(cbn [socket_fd_]; lia)
                  ltac:(lia)
                  ltac:(repeat constructor; cbn [send_result]; lia))).
Defined.

(** X23. [get_byte] gives the byte that [recv] stored, except that a
    received escape byte 0xFF comes back as 0, as does the absence of data:
    the caller cannot tell these from a received NUL. *)
Theorem get_byte_result (EAGAIN EWOULDBLOCK : Z) (c b : byte)
    (rx : recv_outcome) (io : ESP32WiFiIo.t) :
  connected_ io = true -> 0 <= socket_fd_ io ->
  (recv_result rx = 1 -> recv_buffer rx = [b] ->
   get_byte EAGAIN EWOULDBLOCK c rx io
   = (io, if Byte.eqb b xff then x00 else b))
  /\ (recv_result rx <= 0 ->
      (get_byte EAGAIN EWOULDBLOCK c rx io).2 = x00).
Proof.
  intros Hconn Hfd. unfold get_byte, get_bytes. rewrite Hconn.
  cbn [negb orb].
  destruct (Z.ltb_spec (socket_fd_ io) 0) as [?|_]; [lia|].
  split.
  - intros -> ->.
    change (1 <=? 0) with false. change (1 =? 0) with false.
    change (Z.to_nat 1) with 1%nat. cbn [filter_loop].
    change (0 <? 1) with true. change (0 + 2 <? 1) with false.
    change (Z.to_nat 0) with 0%nat. cbn [nth].
    destruct (Byte.eqb b xff); reflexivity.
  - intros Hres.
    destruct (Z.leb_spec (recv_result rx) 0) as [_|?]; [|lia].
    by destruct (negb (recv_errno rx =? EAGAIN)
                 && negb (recv_errno rx =? EWOULDBLOCK)).
Qed.

Lemma get_byte_result_witness :
  get_byte 11 11 x00 (mkRecv 1 0 [xff]) (ESP32WiFiIo.mk 3 true)
  = (ESP32WiFiIo.mk 3 true, x00).
Proof.
  apply (proj1 (get_byte_result 11 11 x00 xff (mkRecv 1 0 [xff])
                  (ESP32WiFiIo.mk 3 true) ltac:(reflexivity)
                  ltac:(cbn [socket_fd_]; lia)));
    reflexivity.
Defined.

(** X24. [send_telnet_response]. On a connected adapter whose socket takes
    each byte, it sends the three bytes 0xFF, [byte1], [byte2] with three
    calls of [send]; these are one control sequence by the rule of the
    adapter's own [get_bytes]: among received data they are removed whole.
    When the first [send] fails with an error other than [EAGAIN] and
    [EWOULDBLOCK], the adapter is disconnected, nothing is sent and no
    further [send] is called. *)
Theorem send_telnet_response_sequence (EAGAIN EWOULDBLOCK : Z)
    (send1 send2 send3 : nat -> send_outcome)
    (sends : list (nat -> send_outcome)) (byte1 byte2 : byte)
    (io : ESP32WiFiIo.t) :
  connected_ io = true -> 0 <= socket_fd_ io ->
  (send_result (send1 1%nat) = 1 -> send_result (send2 1%nat) = 1 ->
   send_result (send3 1%nat) = 1 ->
   send_telnet_response EAGAIN EWOULDBLOCK (send1 :: send2 :: send3 :: sends)
     byte1 byte2 io
   = Some (io, [xff; byte1; byte2], sends)
   /\ forall pre post : list byte,
        ends_clean pre = true ->
        strip_control_sequences (pre ++ [xff; byte1; byte2] ++ post)
        = strip_control_sequences pre ++ strip_control_sequences post)
  /\ (send_result (send1 1%nat) < 0 ->
      would_block EAGAIN EWOULDBLOCK (send_errno (send1 1%nat)) = false ->
      send_telnet_response EAGAIN EWOULDBLOCK
        (send1 :: send2 :: send3 :: sends) byte1 byte2 io
      = Some (disconnect io, [], send2 :: send3 :: sends)).
Proof.
  intros Hconn Hfd. split.
  - intros H1 H2 H3. split.
    + unfold send_telnet_response.
      rewrite (put_byte_taken EAGAIN EWOULDBLOCK send1 _ xff io Hconn Hfd H1).
      rewrite (put_byte_taken EAGAIN EWOULDBLOCK send2 _ byte1 io Hconn Hfd H2).
      by rewrite (put_byte_taken EAGAIN EWOULDBLOCK send3 _ byte2 io Hconn Hfd H3).
    + intros pre post Hpre. by rewrite strip_app.
  - intros Hneg Hhard. unfold send_telnet_response.
    assert (put_byte EAGAIN EWOULDBLOCK (send1 :: send2 :: send3 :: sends)
              xff io
            = Some (disconnect io, [], 0%nat, send2 :: send3 :: sends)) as ->.
    { unfold put_byte, put_bytes. rewrite Hconn. cbn [negb orb].
      destruct (Z.ltb_spec (socket_fd_ io) 0) as [?|_]; [lia|].
      cbn [put_bytes_loop Nat.ltb Nat.leb Nat.sub CHUNK_SIZE].
      destruct (Z.ltb_spec (send_result (send1 1%nat)) 0) as [_|?]; [|lia].
      unfold would_block in Hhard. by rewrite Hhard. }
    by rewrite !put_byte_disconnected.
Qed.

Lemma send_telnet_response_sequence_witness :
  send_telnet_response 11 11
    [fun _ => mkSend 1 0; fun _ => mkSend 1 0; fun _ => mkSend 1 0]
    xfb x01 (ESP32WiFiIo.mk 3 true)
  = Some (ESP32WiFiIo.mk 3 true, [xff; xfb; x01], []).
Proof.
  apply (proj1 (send_telnet_response_sequence 11 11
                  (fun _ => mkSend 1 0) (fun _ => mkSend 1 0)
                  (fun _ => mkSend 1 0) [] xfb x01 (ESP32WiFiIo.mk 3 true)
                  ltac:(reflexivity) ltac:(cbn [socket_fd_]; lia)));
    reflexivity.
Defined.

End AdapterSendTheorems.

(** ** The engine on the default methods *)



